(** * PlanarAlly client: the per-shape vision cache of [shape.ts]

    A shallow embedding of the abstract class [Shape]
    (client/src/game/shapes/shape.ts): its cached vision polygon, the
    setters that move a shape, [updateShapeVision] and the snapping index
    kept by [updateLayerPoints].

    Conventions.
    - A JavaScript [number] is an exact integer here ([Z]): the methods
      below only compare, add and subtract coordinates and counters.  The
      statements use comparisons and the sums and differences the code
      itself forms; where rounding decides a statement (the size of the
      vision box), the loop is given over binary64 numbers as well.
    - [this] and the process-wide singletons the class talks to
      ([floorState], [visionState], [floorSystem], [auraSystem], the
      properties store) are threaded explicitly: a method is a function of
      the heap [(this, world)] that yields a completion (normal return or
      a thrown [TypeError]) and the heap it leaves behind.  State written
      before a throw stays written, as in JavaScript.
    - Calls into collaborators whose code lives outside this class are
      appended to [calls], the chronological log of the world. *)

From stdpp Require Import gmap strings list fin_maps pretty.
From Stdlib Require Import ZArith Floats.

Local Open Scope Z_scope.

(** ** Data *)

Abbreviation number := Z (only parsing).
Abbreviation LocalId := nat (only parsing).
Abbreviation FloorId := nat (only parsing).

(** [LayerName] is a string enum; the class only names [LayerName.Draw]. *)
Abbreviation LayerName := string (only parsing).
Definition LayerName_Draw : LayerName := "draw".

(** [GlobalPoint]: [toGP(x, y)]. *)
Record GlobalPoint := toGP { x : number; y : number }.

(** A [[number, number]] pair as found in point lists and polygons. *)
Abbreviation Point := (number * number)%type (only parsing).

(** [toGP(point)] on an array argument and [toArrayP]. *)
Definition toGP_array (p : Point) : GlobalPoint := toGP p.1 p.2.
Definition toArrayP (p : GlobalPoint) : Point := (x p, y p).

(** [new Vector(x, y)] and [addP(point, vector)]. *)
Record Vector := mkVector { vx : number; vy : number }.
Definition addP (p : GlobalPoint) (v : Vector) : GlobalPoint :=
  toGP (x p + vx v) (y p + vy v).

(** [new BoundingRect(topLeft, w, h)]. *)
Record BoundingRect := mkBoundingRect {
  topLeft : GlobalPoint;
  w : number;
  h : number;
}.

Inductive TriangulationTarget := VISION | MOVEMENT.

(** The fields of [ShapeProperties] this class reads. *)
Record ShapeProperties := mkProps {
  isToken : bool;
  blocksMovement : bool;
  blocksVision : bool;
}.

(** The fields of an aura this class reads. *)
Record Aura := mkAura {
  value : number;
  dim : number;
  visionSource : bool;
}.

(** A [Path2D]: canvas path objects are compared by identity, so each one
    carries the allocation number it got from [new Path2D()]. *)
Inductive PathCmd :=
| moveTo (lx ly : number)
| lineTo (lx ly : number)
| closePath.

Record Path2D := mkPath2D {
  path_id : nat;
  path_cmds : list PathCmd;
}.

(** The instance fields of [Shape] the methods below read or write. *)
Record Shape := mkShape {
  id : LocalId;
  floorId : option FloorId;
  layerName : option LayerName;
  _refPoint : GlobalPoint;
  _angle : number;
  _center : GlobalPoint;
  _points : list Point;
  isSnappable : bool;
  floorIteration : number;
  visionIteration : number;
  _visionPolygon : option (list Point);
  _visionPath : option Path2D;
  _visionBbox : option BoundingRect;
}.

(** The argument of [setPositionRepresentation]. *)
Record PositionRepresentation := mkPosition {
  angle : number;
  points : list Point;
}.

(** Calls that leave the class. *)
Inductive Call :=
| call_computeVisibility (origin : GlobalPoint) (target : TriangulationTarget) (floor : FloorId)
| call_deleteFromTriangulation (target : TriangulationTarget) (shape : LocalId)
| call_addToTriangulation (target : TriangulationTarget) (shape : LocalId)
| call_recalculateVision (floor : FloorId)
| call_recalculateMovement (floor : FloorId)
| call_layer_invalidate (floor : FloorId) (layer : LayerName) (skipLightUpdate : bool)
| call_layer_updateSectors (floor : FloorId) (layer : LayerName) (shape : LocalId) (aabb : BoundingRect)
| call_invalidateLightAllFloors.

(** [ILayer.points]: [Map<string, Set<LocalId>>]. *)
Record Layer := mkLayer {
  layer_points : gmap string (gset LocalId);
}.

(** Everything outside the shape that its methods observe or change. *)
Record World := mkWorld {
  (* floorState.readonly.iteration *)
  floorState_iteration : number;
  (* visionState.getVisionIteration(floor) *)
  visionIterations : FloorId → number;
  (* the polygon computeVisibility yields on the store's present contents *)
  visibility : GlobalPoint → TriangulationTarget → FloorId → list Point;
  (* global-to-local conversions under the present pan and zoom *)
  g2lx : number → number;
  g2ly : number → number;
  getUnitDistance : number → number;
  (* getProperties(id) *)
  properties : LocalId → option ShapeProperties;
  (* auraSystem.getAll(id, true) *)
  auras : LocalId → list Aura;
  (* floorSystem: floors by id, each with its layers by name *)
  floors : gmap FloorId (gmap LayerName Layer);
  calls : list Call;
  (* number of Path2D objects allocated so far *)
  path2d_count : nat;
}.

(** Field updates. *)
Definition set__refPoint (v : GlobalPoint) (s : Shape) : Shape :=
  mkShape (id s) (floorId s) (layerName s) v (_angle s) (_center s) (_points s)
    (isSnappable s) (floorIteration s) (visionIteration s) (_visionPolygon s)
    (_visionPath s) (_visionBbox s).
Definition set__angle (v : number) (s : Shape) : Shape :=
  mkShape (id s) (floorId s) (layerName s) (_refPoint s) v (_center s) (_points s)
    (isSnappable s) (floorIteration s) (visionIteration s) (_visionPolygon s)
    (_visionPath s) (_visionBbox s).
Definition set__center (v : GlobalPoint) (s : Shape) : Shape :=
  mkShape (id s) (floorId s) (layerName s) (_refPoint s) (_angle s) v (_points s)
    (isSnappable s) (floorIteration s) (visionIteration s) (_visionPolygon s)
    (_visionPath s) (_visionBbox s).
Definition set_floorIteration (v : number) (s : Shape) : Shape :=
  mkShape (id s) (floorId s) (layerName s) (_refPoint s) (_angle s) (_center s)
    (_points s) (isSnappable s) v (visionIteration s) (_visionPolygon s)
    (_visionPath s) (_visionBbox s).
Definition set_visionIteration (v : number) (s : Shape) : Shape :=
  mkShape (id s) (floorId s) (layerName s) (_refPoint s) (_angle s) (_center s)
    (_points s) (isSnappable s) (floorIteration s) v (_visionPolygon s)
    (_visionPath s) (_visionBbox s).
Definition set__visionPolygon (v : option (list Point)) (s : Shape) : Shape :=
  mkShape (id s) (floorId s) (layerName s) (_refPoint s) (_angle s) (_center s)
    (_points s) (isSnappable s) (floorIteration s) (visionIteration s) v
    (_visionPath s) (_visionBbox s).
Definition set__visionPath (v : option Path2D) (s : Shape) : Shape :=
  mkShape (id s) (floorId s) (layerName s) (_refPoint s) (_angle s) (_center s)
    (_points s) (isSnappable s) (floorIteration s) (visionIteration s)
    (_visionPolygon s) v (_visionBbox s).
Definition set__visionBbox (v : option BoundingRect) (s : Shape) : Shape :=
  mkShape (id s) (floorId s) (layerName s) (_refPoint s) (_angle s) (_center s)
    (_points s) (isSnappable s) (floorIteration s) (visionIteration s)
    (_visionPolygon s) (_visionPath s) v.
Definition set_floorId_layerName (f : option FloorId) (l : option LayerName) (s : Shape) : Shape :=
  mkShape (id s) f l (_refPoint s) (_angle s) (_center s)
    (_points s) (isSnappable s) (floorIteration s) (visionIteration s)
    (_visionPolygon s) (_visionPath s) (_visionBbox s).

Definition set_calls (v : list Call) (wd : World) : World :=
  mkWorld (floorState_iteration wd) (visionIterations wd) (visibility wd) (g2lx wd)
    (g2ly wd) (getUnitDistance wd) (properties wd) (auras wd) (floors wd) v
    (path2d_count wd).
Definition set_path2d_count (v : nat) (wd : World) : World :=
  mkWorld (floorState_iteration wd) (visionIterations wd) (visibility wd) (g2lx wd)
    (g2ly wd) (getUnitDistance wd) (properties wd) (auras wd) (floors wd) (calls wd) v.
Definition set_floors (v : gmap FloorId (gmap LayerName Layer)) (wd : World) : World :=
  mkWorld (floorState_iteration wd) (visionIterations wd) (visibility wd) (g2lx wd)
    (g2ly wd) (getUnitDistance wd) (properties wd) (auras wd) v (calls wd)
    (path2d_count wd).

(** ** The method monad *)

Inductive JsError := TypeError.

Inductive Completion (A : Type) :=
| Return (a : A)
| Throw (e : JsError).
Arguments Return {A} a.
Arguments Throw {A} e.

Record Heap := mkHeap { this : Shape; world : World }.

Definition Js (A : Type) : Type := Heap → Completion A * Heap.

#[global] Instance Js_ret : MRet Js := λ A a σ, (Return a, σ).
#[global] Instance Js_bind : MBind Js := λ A B f m σ,
  match m σ with
  | (Return a, σ') => f a σ'
  | (Throw e, σ') => (Throw e, σ')
  end.

Definition throw {A} (e : JsError) : Js A := λ σ, (Throw e, σ).
Definition get_this : Js Shape := λ σ, (Return (this σ), σ).
Definition get_world : Js World := λ σ, (Return (world σ), σ).
Definition modify_this (f : Shape → Shape) : Js unit :=
  λ σ, (Return (), mkHeap (f (this σ)) (world σ)).
Definition modify_world (f : World → World) : Js unit :=
  λ σ, (Return (), mkHeap (this σ) (f (world σ))).

Definition log (c : Call) : Js unit :=
  modify_world (λ wd, set_calls (calls wd ++ [c]) wd).

(** [for (const a of l) body(a)] *)
Fixpoint for_of {A} (l : list A) (body : A → Js unit) : Js unit :=
  match l with
  | [] => mret ()
  | a :: l' => body a;; for_of l' body
  end.

(** [new Path2D()]: a fresh, empty path object. *)
Definition new_Path2D : Js Path2D := λ σ,
  (Return (mkPath2D (path2d_count (world σ)) []),
   mkHeap (this σ) (set_path2d_count (S (path2d_count (world σ))) (world σ))).

Definition path_add (c : PathCmd) (p : Path2D) : Path2D :=
  mkPath2D (path_id p) (path_cmds p ++ [c]).

(** The calls a method makes when started in [σ]. *)
Definition calls_of {A} (m : Js A) (σ : Heap) : list Call :=
  drop (length (calls (world σ))) (calls (world (m σ).2)).

(** ** Collaborator code the class is written against *)

(** [BoundingRect.intersect] and [BoundingRect.union] are methods of the
    bounding-rectangle class; the shape only calls them. *)
Class BoundingRectOps := {
  intersect : BoundingRect → BoundingRect → BoundingRect;
  union : BoundingRect → BoundingRect → BoundingRect;
}.

(** [Shape] is abstract: every concrete shape supplies [__center()], which
    reads the shape's fields (and data of the subclass that the methods
    here never write). *)
Class ShapeClass := {
  __center : Shape → GlobalPoint;
}.

(** [JSON.stringify] of a [[number, number]] pair. *)
Definition JSON_stringify (p : Point) : string :=
  "[" +:+ pretty p.1 +:+ "," +:+ pretty p.2 +:+ "]".

(** ** The methods of [Shape] *)

Section Shape.
Context {rects : BoundingRectOps} {cls : ShapeClass}.

(** [get points()] *)
Definition get_points : Js (list Point) := s ← get_this; mret (_points s).

(** [get center()] *)
Definition get_center : Js GlobalPoint := s ← get_this; mret (_center s).

(** [set center(centerPoint)] *)
Definition set_center (centerPoint : GlobalPoint) : Js unit :=
  modify_this (set__center centerPoint);;
  modify_this (set__visionPolygon None).

(** [resetVisionIteration()] *)
Definition resetVisionIteration : Js unit :=
  modify_this (set_visionIteration (-1)).

(** [get floor()]: the floor id when [floorSystem.getFloor] resolves it. *)
Definition get_floor : Js (option (FloorId * gmap LayerName Layer)) :=
  s ← get_this;
  match floorId s with
  | None => mret None
  | Some f => wd ← get_world; mret ((λ fl, (f, fl)) <$> floors wd !! f)
  end.

(** [get layer()]: the layer, with the floor id and name that locate it. *)
Definition get_layer : Js (option (FloorId * LayerName * Layer)) :=
  floor ← get_floor;
  s ← get_this;
  match floor, layerName s with
  | Some (f, fl), Some l => mret ((λ ly, (f, l, ly)) <$> fl !! l)
  | _, _ => mret None
  end.

(** [get refPoint()] ([cloneP] copies the point). *)
Definition get_refPoint : Js GlobalPoint := s ← get_this; mret (_refPoint s).

(** [get angle()] *)
Definition get_angle : Js number := s ← get_this; mret (_angle s).

(** [getAABB(delta = 0)]: reads [points] and [refPoint], writes nothing. *)
Definition getAABB_step (acc : number * number * number * number) (p : Point)
  : number * number * number * number :=
  let '(minx, maxx, miny, maxy) := acc in
  let minx := if p.1 <? minx then p.1 else minx in
  let maxx := if p.1 >? maxx then p.1 else maxx in
  let miny := if p.2 <? miny then p.2 else miny in
  let maxy := if p.2 >? maxy then p.2 else maxy in
  (minx, maxx, miny, maxy).

Definition getAABB (s : Shape) (delta : number) : BoundingRect :=
  match _points s with
  | [] => mkBoundingRect (_refPoint s) 5 5
  | firstPoint :: rest =>
    let '(minx, maxx, miny, maxy) :=
      foldl getAABB_step (firstPoint.1, firstPoint.1, firstPoint.2, firstPoint.2) rest in
    mkBoundingRect (toGP (minx - delta) (miny - delta))
      (maxx - minx + 2 * delta) (maxy - miny + 2 * delta)
  end.

(** [getAuraAABB(options)]: reads the shape and its auras, writes nothing. *)
Definition getAuraAABB_step (onlyVisionSources : bool) (s : Shape)
    (wd : World) (aabb : BoundingRect) (aura : Aura) : BoundingRect :=
  if onlyVisionSources && negb (visionSource aura) then aabb
  else
    let range := getUnitDistance wd (value aura + dim aura) in
    union aabb (mkBoundingRect (addP (_refPoint s) (mkVector (- range) (- range)))
                  (range * 2) (range * 2)).

Definition getAuraAABB (onlyVisionSources : bool) (s : Shape) (wd : World) : BoundingRect :=
  foldl (getAuraAABB_step onlyVisionSources s wd) (getAABB s 0) (auras wd (id s)).

(** [recalcVisionBbox()] *)
Definition recalcVisionBbox_step (acc : number * number * number * number) (point : Point)
  : number * number * number * number :=
  let '(leftX, rightX, topY, botY) := acc in
  let x := point.1 in
  let y := point.2 in
  let '(leftX, rightX) :=
    if leftX >? x then (x, rightX)
    else if rightX <? x then (leftX, x)
    else (leftX, rightX) in
  let '(topY, botY) :=
    if topY >? y then (y, botY)
    else if botY <? y then (topY, y)
    else (topY, botY) in
  (leftX, rightX, topY, botY).

Definition recalcVisionBbox : Js unit :=
  s ← get_this;
  match _visionPolygon s with
  | None | Some [] => modify_this (set__visionBbox None)
  | Some ((first :: _) as polygon) =>
    let '(leftX, rightX, topY, botY) :=
      foldl recalcVisionBbox_step (first.1, first.1, first.2, first.2) polygon in
    wd ← get_world;
    modify_this (set__visionBbox (Some
      (intersect (mkBoundingRect (toGP leftX topY) (rightX - leftX) (botY - topY))
         (getAuraAABB true s wd))))
  end.

(** The three drawing statements of [get visionPolygon()]: [moveTo] the
    first vertex, [lineTo] every vertex, [closePath]. *)
Definition trace_polygon (wd : World) (path : Path2D) (first : Point)
    (polygon : list Point) : Path2D :=
  let path := path_add (moveTo (g2lx wd first.1) (g2ly wd first.2)) path in
  let path :=
    foldl (λ path point, path_add (lineTo (g2lx wd point.1) (g2ly wd point.2)) path)
      path polygon in
  path_add closePath path.

(** [computeVisibility(origin, target, floor)] as seen from the class: the
    call is logged and answers with the world's current polygon. *)
Definition computeVisibility (origin : GlobalPoint) (target : TriangulationTarget)
    (floor : FloorId) : Js (list Point) :=
  log (call_computeVisibility origin target floor);;
  wd ← get_world;
  mret (visibility wd origin target floor).

(** [get visionPolygon()] *)
Definition get_visionPolygon : Js Path2D :=
  s ← get_this;
  match floorId s with
  | None => new_Path2D
  | Some floor =>
    wd ← get_world;
    let floorIteration' := floorState_iteration wd in
    let visionIteration' := visionIterations wd floor in
    let visionAltered := negb (visionIteration' =? visionIteration s) in
    (if bool_decide (_visionPolygon s = None) || visionAltered then
       center ← get_center;
       polygon ← computeVisibility center VISION floor;
       modify_this (set__visionPolygon (Some polygon));;
       modify_this (set_visionIteration visionIteration');;
       recalcVisionBbox
     else mret ());;
    s ← get_this;
    (if bool_decide (_visionPath s = None)
        || negb (floorIteration' =? floorIteration s)
        || visionAltered then
       path ← new_Path2D;
       polygon ← match _visionPolygon s with
                 | Some polygon => mret polygon
                 | None => throw TypeError
                 end;
       first ← match polygon with
               | first :: _ => mret first
               | [] => throw TypeError
               end;
       wd ← get_world;
       let path := trace_polygon wd path first polygon in
       modify_this (set__visionPath (Some path));;
       modify_this (set_floorIteration floorIteration')
     else mret ());;
    s ← get_this;
    match _visionPath s with
    | Some path => mret path
    | None => throw TypeError
    end
  end.

(** [this.layer?.points] mutated in place: the layer is looked up again at
    each use, and nothing happens when it does not resolve. *)
Definition write_layer_points (f : FloorId) (l : LayerName)
    (pts : gmap string (gset LocalId)) (wd : World) : World :=
  set_floors (alter (alter (λ _, mkLayer pts) l) f (floors wd)) wd.

Definition with_layer_points
    (g : gmap string (gset LocalId) → gmap string (gset LocalId)) : Js unit :=
  layer ← get_layer;
  match layer with
  | Some (f, l, ly) => modify_world (write_layer_points f l (g (layer_points ly)))
  | None => mret ()
  end.

(** [updateLayerPoints()] *)
Definition updateLayerPoints : Js unit :=
  s ← get_this;
  layer ← get_layer;
  for_of (match layer with
          | Some (_, _, ly) => map_to_list (layer_points ly)
          | None => []
          end)
    (λ point,
       if bool_decide (id s ∈ point.2) then
         if bool_decide (size point.2 = 1%nat) then with_layer_points (delete point.1)
         else with_layer_points (alter (λ ids, ids ∖ {[id s]}) point.1)
       else mret ());;
  points ← get_points;
  for_of points
    (λ point,
       let strp := JSON_stringify point in
       with_layer_points (λ pts,
         match pts !! strp with
         | Some ids => <[strp := ids ∪ {[id s]}]> pts
         | None => <[strp := {[id s]}]> pts
         end)).

(** [invalidatePoints()] *)
Definition invalidatePoints : Js unit :=
  layer ← get_layer;
  match layer with
  | Some (f, l, _) =>
    s ← get_this;
    wd ← get_world;
    log (call_layer_updateSectors f l (id s) (getAuraAABB false s wd))
  | None => mret ()
  end;;
  s ← get_this;
  if isSnappable s then updateLayerPoints else mret ().

(** [invalidate(skipLightUpdate)] *)
Definition invalidate (skipLightUpdate : bool) : Js unit :=
  s ← get_this;
  match layerName s with
  | Some _ =>
    layer ← get_layer;
    match layer with
    | Some (f, l, _) => log (call_layer_invalidate f l skipLightUpdate)
    | None => throw TypeError
    end
  | None => mret ()
  end.

(** The statement that closes both [set refPoint] and
    [setPositionRepresentation]: a token redraws the Draw layer of its floor. *)
Definition invalidateDrawLayerOfToken : Js unit :=
  s ← get_this;
  wd ← get_world;
  if bool_decide (isToken <$> properties wd (id s) = Some true) then
    floor ← get_floor;
    match floor with
    | Some (f, fl) =>
      match fl !! LayerName_Draw with
      | Some _ => log (call_layer_invalidate f LayerName_Draw true)
      | None => mret ()
      end
    | None => mret ()
    end
  else mret ().

(** [set refPoint(point)] *)
Definition set_refPoint (point : GlobalPoint) : Js unit :=
  modify_this (set__refPoint point);;
  s ← get_this;
  modify_this (set__center (__center s));;
  resetVisionIteration;;
  invalidatePoints;;
  invalidateDrawLayerOfToken.

(** [set angle(angle)] *)
Definition set_angle (angle : number) : Js unit :=
  modify_this (set__angle angle);;
  invalidatePoints.

(** [setLayer(floor, layer)] *)
Definition setLayer (floor : FloorId) (layer : LayerName) : Js unit :=
  modify_this (set_floorId_layerName (Some floor) (Some layer)).

(** [updateShapeVision(alteredMovement, alteredVision)] *)
Definition updateShapeVision (alteredMovement alteredVision : bool) : Js unit :=
  s ← get_this;
  wd ← get_world;
  props ← match properties wd (id s) with
          | Some props => mret props
          | None => throw TypeError
          end;
  (if blocksVision props && negb alteredVision then
     log (call_deleteFromTriangulation VISION (id s));;
     log (call_addToTriangulation VISION (id s));;
     match floorId s with
     | Some f => log (call_recalculateVision f)
     | None => mret ()
     end
   else mret ());;
  invalidate true;;
  log call_invalidateLightAllFloors;;
  if blocksMovement props && negb alteredMovement then
    log (call_deleteFromTriangulation MOVEMENT (id s));;
    log (call_addToTriangulation MOVEMENT (id s));;
    match floorId s with
    | Some f => log (call_recalculateMovement f)
    | None => mret ()
    end
  else mret ().

(** [getPositionRepresentation()] *)
Definition getPositionRepresentation : Js PositionRepresentation :=
  a ← get_angle;
  refPoint ← get_refPoint;
  mret (mkPosition a [toArrayP refPoint]).

(** [setPositionRepresentation(position)] *)
Definition setPositionRepresentation (position : PositionRepresentation) : Js unit :=
  match points position with
  | [] => mret ()
  | first :: _ =>
    modify_this (set__refPoint (toGP_array first));;
    s ← get_this;
    modify_this (set__center (__center s));;
    set_angle (angle position);;
    resetVisionIteration;;
    updateShapeVision false false;;
    invalidateDrawLayerOfToken
  end.

End Shape.

(** ** Further methods of [Shape] *)

(** [equalsP(a, b)] of core/geometry and [rotateAroundPoint(point, center,
    angle)] of core/math: the shape only calls them. *)
Class MathOps := {
  equalsP : GlobalPoint → GlobalPoint → bool;
  rotateAroundPoint : GlobalPoint → GlobalPoint → number → GlobalPoint;
}.

(** [BoundingRect.visibleInCanvas(max)]: whether a rectangle meets the
    canvas of the given size under the present pan and zoom. *)
Class CanvasOps := {
  rect_visibleInCanvas : World → BoundingRect → number * number → bool;
}.

Section MoreShape.
Context {rects : BoundingRectOps} {cls : ShapeClass} {math : MathOps} {canvas : CanvasOps}.

(** [rotateAround(point, angle)] *)
Definition rotateAround (point : GlobalPoint) (angle : number) : Js unit :=
  center ← get_center;
  (if negb (equalsP point center) then set_center (rotateAroundPoint center point angle)
   else mret ());;
  a ← get_angle;
  set_angle (a + angle).

(** [rotateAroundAbsolute(point, angle)] *)
Definition rotateAroundAbsolute (point : GlobalPoint) (angle : number) : Js unit :=
  a ← get_angle;
  rotateAround point (angle - a).

(** [getPointIndex(p, delta = 0)]: the loop over [points.entries()], from
    index [idx] on. *)
Fixpoint getPointIndex_from (idx : number) (points : list Point) (p : GlobalPoint)
    (delta : number) : number :=
  match points with
  | [] => -1
  | point :: rest =>
    if (Z.abs (x p - point.1) <=? delta) && (Z.abs (y p - point.2) <=? delta) then idx
    else getPointIndex_from (idx + 1) rest p delta
  end.

Definition getPointIndex (s : Shape) (p : GlobalPoint) (delta : number) : number :=
  getPointIndex_from 0 (_points s) p delta.

(** [getBoundingBox(delta = 0)] *)
Definition getBoundingBox (s : Shape) (delta : number) : BoundingRect := getAABB s delta.

(** [visibleInCanvas(max, options)]: the loop over the auras returns at the
    first aura whose square is visible. *)
Fixpoint visibleInCanvas_auras (s : Shape) (wd : World) (max : number * number)
    (l : list Aura) : bool :=
  match l with
  | [] => false
  | aura :: rest =>
    if (value aura >? 0) || (dim aura >? 0) then
      let r := getUnitDistance wd (value aura + dim aura) in
      let center := _center s in
      let auraArea := mkBoundingRect (toGP (x center - r) (y center - r)) (r * 2) (r * 2) in
      if rect_visibleInCanvas wd auraArea max then true
      else visibleInCanvas_auras s wd max rest
    else visibleInCanvas_auras s wd max rest
  end.

Definition visibleInCanvas (s : Shape) (wd : World) (max : number * number)
    (includeAuras : bool) : bool :=
  if includeAuras then visibleInCanvas_auras s wd max (auras wd (id s)) else false.

End MoreShape.

(** ** Vocabulary of the statements *)

(** A rectangle lies within another. *)
Definition rect_within (r r' : BoundingRect) : Prop :=
  x (topLeft r') ≤ x (topLeft r) ∧ x (topLeft r) + w r ≤ x (topLeft r') + w r' ∧
  y (topLeft r') ≤ y (topLeft r) ∧ y (topLeft r) + h r ≤ y (topLeft r') + h r'.

(** What the loop of [recalcVisionBbox] knows after the vertices [seen]. *)
Definition extremes_of (seen : list Point) (acc : number * number * number * number) : Prop :=
  let '(leftX, rightX, topY, botY) := acc in
  (∀ p, p ∈ seen → leftX ≤ p.1 ≤ rightX ∧ topY ≤ p.2 ≤ botY) ∧
  (∃ p, p ∈ seen ∧ p.1 = leftX) ∧ (∃ p, p ∈ seen ∧ p.1 = rightX) ∧
  (∃ p, p ∈ seen ∧ p.2 = topY) ∧ (∃ p, p ∈ seen ∧ p.2 = botY).

(** The rectangle the code forms from the extremes of a list of points:
    corner at the least coordinates less [delta], sides the differences of
    the extremes plus twice [delta]. *)
Definition extremes_box_delta (points : list Point) (delta : number) (r : BoundingRect)
  : Prop :=
  ∃ minx maxx miny maxy,
    extremes_of points (minx, maxx, miny, maxy) ∧
    r = mkBoundingRect (toGP (minx - delta) (miny - delta))
          (maxx - minx + 2 * delta) (maxy - miny + 2 * delta).

(** The same without a margin, as [recalcVisionBbox] forms it. *)
Definition extremes_box (polygon : list Point) (r : BoundingRect) : Prop :=
  ∃ leftX rightX topY botY,
    extremes_of polygon (leftX, rightX, topY, botY) ∧
    r = mkBoundingRect (toGP leftX topY) (rightX - leftX) (botY - topY).

(** The counter bump of a target kind. *)
Definition call_recalculate (target : TriangulationTarget) (floor : FloorId) : Call :=
  match target with
  | VISION => call_recalculateVision floor
  | MOVEMENT => call_recalculateMovement floor
  end.

(** Delete-then-add of a shape's segments, then the bump of its floor. *)
Definition triangulation_refresh (target : TriangulationTarget) (s : Shape) : list Call :=
  [call_deleteFromTriangulation target (id s); call_addToTriangulation target (id s)]
  ++ match floorId s with
     | Some f => [call_recalculate target f]
     | None => []
     end.

(** The triangulation and counter calls that are about a target kind. *)
Definition target_eqb (a b : TriangulationTarget) : bool :=
  match a, b with
  | VISION, VISION | MOVEMENT, MOVEMENT => true
  | _, _ => false
  end.

Definition concerns (target : TriangulationTarget) (c : Call) : bool :=
  match c with
  | call_deleteFromTriangulation t _ | call_addToTriangulation t _ => target_eqb t target
  | call_recalculateVision _ => target_eqb VISION target
  | call_recalculateMovement _ => target_eqb MOVEMENT target
  | _ => false
  end.

(** The blocker property and the altered flag that go with a target kind. *)
Definition blocks (target : TriangulationTarget) (props : ShapeProperties) : bool :=
  match target with
  | VISION => blocksVision props
  | MOVEMENT => blocksMovement props
  end.

Definition altered_flag (target : TriangulationTarget) (alteredMovement alteredVision : bool)
  : bool :=
  match target with
  | VISION => alteredVision
  | MOVEMENT => alteredMovement
  end.

(** The redraw request [invalidate(true)] sends to the shape's layer. *)
Definition invalidate_calls (s : Shape) : list Call :=
  match floorId s, layerName s with
  | Some f, Some l => [call_layer_invalidate f l true]
  | _, _ => []
  end.

(** The layer a shape is on, when it resolves in the floor registry. *)
Definition layer_of (s : Shape) (wd : World) : option Layer :=
  f ← floorId s; l ← layerName s; fl ← floors wd !! f; fl !! l.

(** The keys of [layer.points] that hold an id. *)
Definition keys_holding (i : LocalId) (pts : gmap string (gset LocalId)) (k : string) : Prop :=
  ∃ ids, pts !! k = Some ids ∧ i ∈ ids.

(** What the first loop of [updateLayerPoints] does to one entry. *)
Definition strip (i : LocalId) (ids : gset LocalId) : option (gset LocalId) :=
  if bool_decide (i ∈ ids) then
    if bool_decide (size ids = 1%nat) then None else Some (ids ∖ {[i]})
  else Some ids.

Definition strip_step (i : LocalId) (pts : gmap string (gset LocalId))
    (point : string * gset LocalId) : gmap string (gset LocalId) :=
  if bool_decide (i ∈ point.2) then
    if bool_decide (size point.2 = 1%nat) then delete point.1 pts
    else alter (λ ids, ids ∖ {[i]}) point.1 pts
  else pts.

(** What its second loop does for one point. *)
Definition enter_step (i : LocalId) (pts : gmap string (gset LocalId)) (point : Point)
  : gmap string (gset LocalId) :=
  let strp := JSON_stringify point in
  match pts !! strp with
  | Some ids => <[strp := ids ∪ {[i]}]> pts
  | None => <[strp := {[i]}]> pts
  end.

(** A point of the shape is within [delta] of [p] on both axes. *)
Definition near (p : GlobalPoint) (delta : number) (point : Point) : Prop :=
  Z.abs (x p - point.1) ≤ delta ∧ Z.abs (y p - point.2) ≤ delta.

(** The square an aura adds to the aura box of a shape. *)
Definition aura_square (s : Shape) (wd : World) (aura : Aura) : BoundingRect :=
  let range := getUnitDistance wd (value aura + dim aura) in
  mkBoundingRect (addP (_refPoint s) (mkVector (- range) (- range))) (range * 2) (range * 2).

(** The square [visibleInCanvas] tests for an aura. *)
Definition aura_area (s : Shape) (wd : World) (aura : Aura) : BoundingRect :=
  let r := getUnitDistance wd (value aura + dim aura) in
  mkBoundingRect (toGP (x (_center s) - r) (y (_center s) - r)) (r * 2) (r * 2).

(** Worlds that differ from a given one in what a collaborator answers. *)
Definition with_auras (f : LocalId → list Aura) (wd : World) : World :=
  mkWorld (floorState_iteration wd) (visionIterations wd) (visibility wd) (g2lx wd)
    (g2ly wd) (getUnitDistance wd) (properties wd) f (floors wd) (calls wd)
    (path2d_count wd).
Definition with_properties (f : LocalId → option ShapeProperties) (wd : World) : World :=
  mkWorld (floorState_iteration wd) (visionIterations wd) (visibility wd) (g2lx wd)
    (g2ly wd) (getUnitDistance wd) f (auras wd) (floors wd) (calls wd)
    (path2d_count wd).
Definition with_visibility
    (f : GlobalPoint → TriangulationTarget → FloorId → list Point) (wd : World) : World :=
  mkWorld (floorState_iteration wd) (visionIterations wd) f (g2lx wd)
    (g2ly wd) (getUnitDistance wd) (properties wd) (auras wd) (floors wd) (calls wd)
    (path2d_count wd).

(** The world in which every shape only has its vision-source auras. *)
Definition only_vision_sources (wd : World) : World :=
  with_auras (λ i, filter (λ aura, visionSource aura = true) (auras wd i)) wd.

(** The redraw request a token sends to the Draw layer of its floor. *)
Definition draw_layer_calls (s : Shape) (wd : World) : list Call :=
  match properties wd (id s), floorId s with
  | Some props, Some f =>
    if isToken props && bool_decide (is_Some (floors wd !! f ≫= (.!! LayerName_Draw)))
    then [call_layer_invalidate f LayerName_Draw true] else []
  | _, _ => []
  end.

(** The sector update [invalidatePoints] sends to the shape's layer. *)
Definition updateSectors_calls {rects : BoundingRectOps} (s : Shape) (wd : World)
  : list Call :=
  match floorId s, layerName s, layer_of s wd with
  | Some f, Some l, Some _ =>
    [call_layer_updateSectors f l (id s) (getAuraAABB false s wd)]
  | _, _, _ => []
  end.

(** The shape the body of [setPositionRepresentation] leaves behind for a
    first point and an angle. *)
Definition repositioned {cls : ShapeClass} (first : Point) (a : number) (s : Shape) : Shape :=
  let s1 := set__refPoint (toGP_array first) s in
  set_visionIteration (-1) (set__angle a (set__center (__center s1) s1)).

(** The points map of a layer once both loops of [updateLayerPoints] have
    run for a shape, and the world that leaves behind. *)
Definition layer_points_after (s : Shape) (pts : gmap string (gset LocalId))
  : gmap string (gset LocalId) :=
  foldl (enter_step (id s)) (foldl (strip_step (id s)) pts (map_to_list pts)) (_points s).

Definition updateLayerPoints_world (s : Shape) (wd : World) : World :=
  match floorId s, layerName s, layer_of s wd with
  | Some f, Some l, Some ly =>
    write_layer_points f l (layer_points_after s (layer_points ly)) wd
  | _, _, _ => wd
  end.

(** The world [invalidatePoints] leaves behind. *)
Definition invalidatePoints_world {rects : BoundingRectOps} (s : Shape) (wd : World)
  : World :=
  let wd1 := set_calls (calls wd ++ updateSectors_calls s wd) wd in
  if isSnappable s then updateLayerPoints_world s wd1 else wd1.

(** Putting the vision cache of [s] back into [s'] / the log and the path
    count of [wd] back into [wd']. *)
Definition with_vision_cache_of (s s' : Shape) : Shape :=
  set__visionBbox (_visionBbox s) (set__visionPath (_visionPath s)
    (set__visionPolygon (_visionPolygon s) (set_visionIteration (visionIteration s)
      (set_floorIteration (floorIteration s) s')))).

Definition with_log_of (wd wd' : World) : World :=
  set_calls (calls wd) (set_path2d_count (path2d_count wd) wd').

(** The lines a path gets for a polygon. *)
Definition polygon_lines (wd : World) (polygon : list Point) : list PathCmd :=
  (λ point, lineTo (g2lx wd point.1) (g2ly wd point.2)) <$> polygon.

(** ** The loop of [recalcVisionBbox] over binary64 numbers *)

(** The same statements as [recalcVisionBbox_step], with the comparisons
    and the two subtractions of IEEE 754 binary64 ([leftX > x] is written
    [x <? leftX]). *)
Definition recalcVisionBbox_step_binary64 (acc : float * float * float * float)
    (point : float * float) : float * float * float * float :=
  let '(leftX, rightX, topY, botY) := acc in
  let x := point.1 in
  let y := point.2 in
  let '(leftX, rightX) :=
    if (x <? leftX)%float then (x, rightX)
    else if (rightX <? x)%float then (leftX, x)
    else (leftX, rightX) in
  let '(topY, botY) :=
    if (y <? topY)%float then (y, botY)
    else if (botY <? y)%float then (topY, y)
    else (topY, botY) in
  (leftX, rightX, topY, botY).

(** The rectangle handed to [intersect]: corner x, corner y, w, h. *)
Definition recalcVisionBbox_rect_binary64 (polygon : list (float * float))
  : option (float * float * float * float) :=
  match polygon with
  | [] => None
  | first :: _ =>
    let '(leftX, rightX, topY, botY) :=
      foldl recalcVisionBbox_step_binary64 (first.1, first.1, first.2, first.2) polygon in
    Some (leftX, topY, (rightX - leftX)%float, (botY - topY)%float)
  end.

(** A point lies between the edges of such a rectangle. *)
Definition rect_contains_binary64 (r : float * float * float * float)
    (p : float * float) : bool :=
  let '(rx, ry, rw, rh) := r in
  (rx <=? p.1)%float && (p.1 <=? rx + rw)%float
  && (ry <=? p.2)%float && (p.2 <=? ry + rh)%float.

(** A quadrilateral with vertices at x = -5 and x = 0.1 (the binary64
    number nearest to 0.1). *)
Definition tenth : float := 0x1.999999999999ap-4%float.
Definition sample_quad_binary64 : list (float * float) :=
  [((-5)%float, 0%float); (tenth, 0%float); (tenth, 1%float); ((-5)%float, 1%float)].

(** ** A concrete instance, for examples *)

Definition sample_intersect (a b : BoundingRect) : BoundingRect :=
  let tx := Z.max (x (topLeft a)) (x (topLeft b)) in
  let ty := Z.max (y (topLeft a)) (y (topLeft b)) in
  mkBoundingRect (toGP tx ty)
    (Z.min (x (topLeft a) + w a) (x (topLeft b) + w b) - tx)
    (Z.min (y (topLeft a) + h a) (y (topLeft b) + h b) - ty).

Definition sample_union (a b : BoundingRect) : BoundingRect :=
  let tx := Z.min (x (topLeft a)) (x (topLeft b)) in
  let ty := Z.min (y (topLeft a)) (y (topLeft b)) in
  mkBoundingRect (toGP tx ty)
    (Z.max (x (topLeft a) + w a) (x (topLeft b) + w b) - tx)
    (Z.max (y (topLeft a) + h a) (y (topLeft b) + h b) - ty).

Definition sample_rects : BoundingRectOps :=
  {| intersect := sample_intersect; union := sample_union |}.

(** A shape whose centre is its reference point. *)
Definition sample_class : ShapeClass := {| __center := _refPoint |}.

(** A token on the "tokens" layer of floor 0, with a vision cache computed
    at iteration 3. *)
Definition sample_square : list Point := [(0, 0); (10, 0); (10, 10); (0, 10)].

Definition sample_shape : Shape :=
  {| id := 7; floorId := Some 0%nat; layerName := Some "tokens";
     _refPoint := toGP 5 5; _angle := 0; _center := toGP 5 5;
     _points := [(5, 5)]; isSnappable := true;
     floorIteration := 4; visionIteration := 3;
     _visionPolygon := Some sample_square;
     _visionPath := Some (mkPath2D 0 [moveTo 0 0; lineTo 0 0; lineTo 10 0; lineTo 10 10;
                                      lineTo 0 10; closePath]);
     _visionBbox := Some (mkBoundingRect (toGP 5 5) 5 5) |}.

Definition sample_layers : gmap LayerName Layer :=
  {[ "tokens" := mkLayer {[ "[5,5]" := {[ 7%nat ]}; "[1,1]" := {[ 7%nat; 8%nat ]} ]};
     "draw" := mkLayer ∅ ]}.

Definition sample_world : World :=
  {| floorState_iteration := 4;
     visionIterations := λ _, 3;
     visibility := λ _ _ _, [(-20, -20); (20, -20); (20, 20); (-20, 20)];
     g2lx := λ v, v; g2ly := λ v, v;
     getUnitDistance := λ v, v * 10;
     properties := λ _, Some (mkProps true true true);
     auras := λ _, [mkAura 1 1 true; mkAura 5 5 false];
     floors := {[ 0%nat := sample_layers ]};
     calls := [];
     path2d_count := 1 |}.

(** Points compared coordinate by coordinate, a rotation that mirrors the
    point in the pivot, and a canvas that shows what overlaps it. *)
Definition sample_math : MathOps :=
  {| equalsP := λ a b, (x a =? x b) && (y a =? y b);
     rotateAroundPoint := λ point center _,
       toGP (2 * x center - x point) (2 * y center - y point) |}.
Definition sample_canvas : CanvasOps :=
  {| rect_visibleInCanvas := λ _ r max,
       (x (topLeft r) <? max.1) && (y (topLeft r) <? max.2)
       && (0 <? x (topLeft r) + w r) && (0 <? y (topLeft r) + h r) |}.

(** A shape with four points, one of them twice, and an empty cache. *)
Definition sample_triangle : Shape :=
  {| id := 9; floorId := Some 0%nat; layerName := Some "tokens";
     _refPoint := toGP 0 0; _angle := 0; _center := toGP 2 1;
     _points := [(0, 0); (4, 0); (2, 3); (4, 0)]; isSnappable := false;
     floorIteration := -1; visionIteration := -1;
     _visionPolygon := None; _visionPath := None; _visionBbox := None |}.

(** The sample shape with an outdated vision iteration, and off any floor. *)
Definition stale_shape : Shape := set_visionIteration 2 sample_shape.
Definition unplaced_shape : Shape := set_floorId_layerName None None sample_shape.

(** ** Running a method *)

Lemma bind_run {A B} (m : Js A) (f : A → Js B) σ :
  (m ≫= f) σ = match m σ with
               | (Return a, σ') => f a σ'
               | (Throw e, σ') => (Throw e, σ')
               end.
Proof. reflexivity. Qed.

Ltac run :=
  repeat first
    [ rewrite bind_run
    | progress cbn [mbind mret Js_bind Js_ret get_this get_world modify_this modify_world
                    throw log new_Path2D this world fst snd] ].

(** ** The two loops of [updateLayerPoints], entry by entry *)

Lemma strip_step_lookup i pts k0 ids0 k :
  pts !! k0 = Some ids0 →
  strip_step i pts (k0, ids0) !! k = if decide (k = k0) then strip i ids0 else pts !! k.
Proof.
  intros Hk0. unfold strip_step, strip. cbn [fst snd].
  destruct (decide (k = k0)) as [->|Hne]; repeat case_bool_decide;
    rewrite ?lookup_delete_eq, ?lookup_delete_ne, ?lookup_alter_eq, ?lookup_alter_ne, ?Hk0 by done;
    done.
Qed.

Lemma strip_fold_lookup i (entries : list (string * gset LocalId)) pts k :
  NoDup entries.*1 →
  (∀ k' ids, (k', ids) ∈ entries → pts !! k' = Some ids) →
  foldl (strip_step i) pts entries !! k
  = if decide (k ∈ entries.*1) then pts !! k ≫= strip i else pts !! k.
Proof.
  revert pts. induction entries as [|[k0 ids0] entries IH]; intros pts Hnd Hent.
  - cbn. case_decide as Hin; [by apply elem_of_nil in Hin|done].
  - cbn [foldl]. apply NoDup_cons in Hnd as [Hk0 Hnd].
    assert (pts !! k0 = Some ids0) as Hpts by apply Hent, list_elem_of_here.
    rewrite IH; [|done|].
    + rewrite !strip_step_lookup by done. cbn [fmap list_fmap fst].
      destruct (decide (k = k0)) as [->|Hne].
      * rewrite decide_False by done. rewrite decide_True by apply list_elem_of_here.
        by rewrite Hpts.
      * do 2 case_decide; try done.
        -- exfalso. match goal with Hn : _ ∉ _ |- _ => apply Hn end. by apply list_elem_of_further.
        -- exfalso. match goal with Hi : _ ∈ _ :: _ |- _ => apply elem_of_cons in Hi as [?|?] end; done.
    + intros k' ids Hin. rewrite strip_step_lookup by done.
      rewrite decide_False; [apply Hent; by apply list_elem_of_further|].
      intros ->. apply Hk0. apply list_elem_of_fmap. by exists (k0, ids).
Qed.

Lemma strip_all_lookup i (pts : gmap string (gset LocalId)) k :
  foldl (strip_step i) pts (map_to_list pts) !! k = pts !! k ≫= strip i.
Proof.
  rewrite strip_fold_lookup.
  - case_decide as Hin; [done|]. destruct (pts !! k) as [ids|] eqn:Hk; [|done].
    exfalso. apply Hin, list_elem_of_fmap. exists (k, ids). split; [done|].
    by apply elem_of_map_to_list.
  - apply NoDup_fst_map_to_list.
  - intros k' ids. apply elem_of_map_to_list.
Qed.

Lemma enter_step_lookup i pts point k :
  enter_step i pts point !! k
  = if decide (k = JSON_stringify point) then Some (default ∅ (pts !! k) ∪ {[i]}) else pts !! k.
Proof.
  unfold enter_step. case_decide as Hk.
  - subst k. destruct (pts !! JSON_stringify point) as [ids|] eqn:Hl;
      rewrite lookup_insert_eq; cbn; f_equal. by rewrite (left_id_L ∅ (∪)).
  - destruct (pts !! JSON_stringify point); by rewrite lookup_insert_ne.
Qed.

Lemma enter_fold_lookup i (points : list Point) pts k :
  foldl (enter_step i) pts points !! k
  = if decide (k ∈ JSON_stringify <$> points) then Some (default ∅ (pts !! k) ∪ {[i]})
    else pts !! k.
Proof.
  revert pts. induction points as [|point points IH]; intros pts.
  - cbn. case_decide as Hin; [by apply elem_of_nil in Hin|done].
  - cbn [foldl]. rewrite IH, !enter_step_lookup. cbn [fmap list_fmap].
    destruct (decide (k = JSON_stringify point)) as [->|Hne].
    + rewrite (decide_True (P := _ ∈ _ :: _)) by apply list_elem_of_here.
      case_decide; [|done]. cbn. f_equal.
      by rewrite <- (assoc_L (∪)), (idemp_L (∪)).
    + do 2 case_decide; try done.
      * exfalso. match goal with Hn : _ ∉ _ |- _ => apply Hn end. by apply list_elem_of_further.
      * exfalso. match goal with Hi : _ ∈ _ :: _ |- _ => apply elem_of_cons in Hi as [?|?] end; done.
Qed.

(** ** The loop of [recalcVisionBbox] finds the extremes *)

Lemma recalcVisionBbox_step_extremes seen acc point :
  seen ≠ [] →
  extremes_of seen acc → extremes_of (seen ++ [point]) (recalcVisionBbox_step acc point).
Proof.
  destruct acc as [[[leftX rightX] topY] botY]. intros Hne Hacc.
  unfold extremes_of in Hacc. destruct Hacc as (Hin & Hl & Hr & Ht & Hb).
  assert (leftX ≤ rightX ∧ topY ≤ botY) as [Hx Hy].
  { destruct seen as [|q seen]; [congruence|]. specialize (Hin q (list_elem_of_here _ _)). lia. }
  unfold recalcVisionBbox_step, extremes_of.
  assert (∀ v, (∃ p, p ∈ seen ∧ v p) → ∃ p, p ∈ seen ++ [point] ∧ v p) as Hold.
  { intros v (p & ? & ?). exists p. split; [apply elem_of_app; by left|done]. }
  assert (point ∈ seen ++ [point]) as Hnew
    by (apply elem_of_app; right; by apply list_elem_of_singleton).
  destruct (Z.gtb_spec leftX point.1), (Z.ltb_spec rightX point.1),
    (Z.gtb_spec topY point.2), (Z.ltb_spec botY point.2);
    (split; [intros p [Hp| ->%list_elem_of_singleton]%elem_of_app;
               [specialize (Hin p Hp)|]; lia|]);
    repeat split; first [by apply Hold | by exists point].
Qed.

Lemma recalcVisionBbox_fold_extremes polygon seen acc :
  seen ≠ [] →
  extremes_of seen acc →
  extremes_of (seen ++ polygon) (foldl recalcVisionBbox_step acc polygon).
Proof.
  revert seen acc. induction polygon as [|point polygon IH]; intros seen acc Hne Hacc.
  - by rewrite app_nil_r.
  - cbn [foldl]. rewrite cons_middle, app_assoc. apply IH.
    + by destruct seen.
    + by apply recalcVisionBbox_step_extremes.
Qed.

Section Run.
Context {rects : BoundingRectOps} {cls : ShapeClass}.

Lemma calls_of_app {A} (m : Js A) σ l :
  calls (world (m σ).2) = calls (world σ) ++ l → calls_of m σ = l.
Proof. unfold calls_of. intros ->. by rewrite drop_app_length. Qed.

(** C4: a shape without a floor reads an empty path; nothing is computed,
    nothing is cached, nothing is thrown. *)
Theorem visionPolygon_without_floor (s : Shape) (wd : World) :
  floorId s = None →
  ∃ path wd',
    get_visionPolygon (mkHeap s wd) = (Return path, mkHeap s wd') ∧
    path_cmds path = [] ∧
    calls wd' = calls wd ∧
    wd' = set_path2d_count (S (path2d_count wd)) wd.
Proof.
  intros Hf. unfold get_visionPolygon. rewrite bind_run. run. rewrite Hf. run.
  eexists _, _. split; [reflexivity|]. cbn. auto.
Qed.

(** C9: an empty point list leaves the whole heap as it was. *)
Theorem setPositionRepresentation_empty (position : PositionRepresentation) (σ : Heap) :
  points position = [] →
  setPositionRepresentation position σ = (Return (), σ).
Proof. intros Hp. unfold setPositionRepresentation. by rewrite Hp. Qed.

Lemma recalcVisionBbox_cases (s : Shape) (wd : World) :
  ∃ bbox,
    recalcVisionBbox (mkHeap s wd) = (Return (), mkHeap (set__visionBbox bbox s) wd) ∧
    match _visionPolygon s with
    | None | Some [] => bbox = None
    | Some polygon =>
      ∃ r, extremes_box polygon r ∧
           bbox = Some (intersect r (getAuraAABB true s wd))
    end.
Proof.
  unfold recalcVisionBbox. run.
  destruct (_visionPolygon s) as [[|first rest]|]; run; eauto.
  pose proof (recalcVisionBbox_fold_extremes (first :: rest) [first]
                (first.1, first.1, first.2, first.2)) as Hfold.
  destruct (foldl _ _ _) as [[[leftX rightX] topY] botY]. run.
  eexists. split; [reflexivity|]. eexists. split; [|reflexivity].
  eexists _, _, _, _. split; [|reflexivity].
  unfold extremes_of in Hfold at 2. unfold extremes_of.
  destruct Hfold as (Hin & Hl & Hr & Ht & Hb); [done| |].
  { split; [intros p ->%list_elem_of_singleton; lia|].
    repeat split; exists first; (split; [by apply list_elem_of_singleton | done]). }
  assert (∀ p : Point, p ∈ [first] ++ first :: rest → p ∈ first :: rest) as Hsub.
  { intros p [->%list_elem_of_singleton|Hp]%elem_of_app; [apply list_elem_of_here|done]. }
  split; [intros p Hp; apply Hin, elem_of_app; by right|].
  repeat split; [destruct Hl as (p&?&?) | destruct Hr as (p&?&?)
                 | destruct Ht as (p&?&?) | destruct Hb as (p&?&?)]; exists p; auto.
Qed.

Lemma get_visionPolygon_run (s : Shape) (wd : World) (floor : FloorId) :
  floorId s = Some floor →
  let cur := visionIterations wd floor in
  let altered := negb (cur =? visionIteration s) in
  let recompute := bool_decide (_visionPolygon s = None) || altered in
  let redraw := bool_decide (_visionPath s = None)
                || negb (floorState_iteration wd =? floorIteration s) || altered in
  let s0 := set_visionIteration cur
              (set__visionPolygon (Some (visibility wd (_center s) VISION floor)) s) in
  let wd0 := set_calls (calls wd ++ [call_computeVisibility (_center s) VISION floor]) wd in
  ∃ bbox,
    match visibility wd (_center s) VISION floor with
    | [] => bbox = None
    | polygon => ∃ r, extremes_box polygon r ∧
                      bbox = Some (intersect r (getAuraAABB true s wd))
    end ∧
    let s1 := if recompute then set__visionBbox bbox s0 else s in
    let wd1 := if recompute then wd0 else wd in
    get_visionPolygon (mkHeap s wd) =
      if redraw then
        match _visionPolygon s1 with
        | Some ((first :: _) as polygon) =>
          let path := trace_polygon wd (mkPath2D (path2d_count wd) []) first polygon in
          (Return path,
           mkHeap (set_floorIteration (floorState_iteration wd) (set__visionPath (Some path) s1))
                  (set_path2d_count (S (path2d_count wd)) wd1))
        | _ => (Throw TypeError, mkHeap s1 (set_path2d_count (S (path2d_count wd)) wd1))
        end
      else
        match _visionPath s with
        | Some path => (Return path, mkHeap s1 wd1)
        | None => (Throw TypeError, mkHeap s1 wd1)
        end.
Proof.
  intros Hf cur altered recompute redraw s0 wd0.
  destruct (recalcVisionBbox_cases s0 wd0) as (bbox & Hb & Hbbox).
  exists bbox. split.
  { change (_visionPolygon s0) with (Some (visibility wd (_center s) VISION floor)) in Hbbox.
    change (getAuraAABB true s0 wd0) with (getAuraAABB true s wd) in Hbbox.
    destruct (visibility wd (_center s) VISION floor); exact Hbbox. }
  clear Hbbox.
  unfold get_visionPolygon. run. rewrite Hf. run.
  fold cur altered recompute.
  destruct recompute.
  - unfold get_center, computeVisibility. run. fold wd0.
    change (visibility wd0) with (visibility wd). fold s0. rewrite Hb.
    run. change (_visionPath (set__visionBbox bbox s0)) with (_visionPath s).
    change (floorIteration (set__visionBbox bbox s0)) with (floorIteration s).
    fold redraw. destruct redraw.
    + run. destruct (_visionPolygon (set__visionBbox bbox s0)) as [[|first rest]|]; run; try reflexivity.
    + run. change (_visionPath (set__visionBbox bbox s0)) with (_visionPath s).
      destruct (_visionPath s); reflexivity.
  - run. fold redraw. destruct redraw.
    + run. destruct (_visionPolygon s) as [[|first rest]|]; run; try reflexivity.
    + run. destruct (_visionPath s); reflexivity.
Qed.

Lemma visionPolygon_post (s : Shape) (wd : World) (floor : FloorId) path s1 wd1 :
  floorId s = Some floor →
  get_visionPolygon (mkHeap s wd) = (Return path, mkHeap s1 wd1) →
  floorId s1 = Some floor ∧ _visionPath s1 = Some path ∧ is_Some (_visionPolygon s1) ∧
  visionIteration s1 = visionIterations wd floor ∧
  floorIteration s1 = floorState_iteration wd ∧
  visionIterations wd1 = visionIterations wd ∧
  floorState_iteration wd1 = floorState_iteration wd.
Proof.
  intros Hf Hrun.
  destruct (get_visionPolygon_run s wd floor Hf) as (bbox & _ & Heq).
  cbv zeta in Heq. rewrite Heq in Hrun. clear Heq.
  destruct (bool_decide (_visionPolygon s = None)) eqn:Hpoly;
    destruct (visionIterations wd floor =? visionIteration s) eqn:Hvis;
    destruct (bool_decide (_visionPath s = None)) eqn:Hpath;
    destruct (floorState_iteration wd =? floorIteration s) eqn:Hflo;
    cbn [negb orb] in Hrun;
    repeat match type of Hrun with
           | context [match ?o with _ => _ end] => destruct o eqn:?
           end;
    try discriminate Hrun;
    injection Hrun as <- <- <-;
    try apply Z.eqb_eq in Hvis; try apply Z.eqb_eq in Hflo;
    try apply bool_decide_eq_false in Hpoly;
    cbn; repeat split; eauto; try congruence.
  all: destruct (_visionPolygon s); [eauto | congruence].
Qed.

(** X25: a read on a floor returns a path as soon as the polygon it ends
    up with has a vertex. *)
Lemma visionPolygon_returns (s : Shape) (wd : World) (floor : FloorId) :
  floorId s = Some floor →
  visibility wd (_center s) VISION floor ≠ [] →
  (∀ polygon, _visionPolygon s = Some polygon → polygon ≠ []) →
  ∃ path s1 wd1, get_visionPolygon (mkHeap s wd) = (Return path, mkHeap s1 wd1).
Proof.
  intros Hf Hvis Hcached.
  destruct (get_visionPolygon_run s wd floor Hf) as (bbox & _ & Heq).
  cbv zeta in Heq. rewrite Heq. clear Heq.
  destruct (_visionPolygon s) as [[|first rest]|] eqn:Hpoly;
    [by destruct (Hcached [] eq_refl)| |];
    destruct (visibility wd (_center s) VISION floor) as [|v vs]; try done;
    destruct (visionIterations wd floor =? visionIteration s);
    destruct (_visionPath s) as [cached|];
    destruct (floorState_iteration wd =? floorIteration s);
    cbn; rewrite ?Hpoly; eauto.
Qed.

(** C2: a second read of a shape that was not touched, under the same
    vision and redraw iterations, returns the very path object the first
    read returned and leaves shape and world as they were. *)
Theorem visionPolygon_referentially_stable (s : Shape) (wd : World) (floor : FloorId)
    (path : Path2D) (s1 : Shape) (wd1 wd2 : World) :
  floorId s = Some floor →
  get_visionPolygon (mkHeap s wd) = (Return path, mkHeap s1 wd1) →
  visionIterations wd2 floor = visionIterations wd1 floor →
  floorState_iteration wd2 = floorState_iteration wd1 →
  get_visionPolygon (mkHeap s1 wd2) = (Return path, mkHeap s1 wd2).
Proof.
  intros Hf Hrun Hv Hfl.
  destruct (visionPolygon_post _ _ _ _ _ _ Hf Hrun)
    as (Hf1 & Hpath & [polygon Hpoly] & Hvis & Hflo & Hwv & Hwf).
  destruct (get_visionPolygon_run s1 wd2 floor Hf1) as (bbox & _ & Heq).
  cbv zeta in Heq. rewrite Heq. clear Heq.
  rewrite Hpath, Hpoly, Hv, Hwv, Hvis, Hfl, Hwf, Hflo, !Z.eqb_refl.
  reflexivity.
Qed.

(** X24: a polygon without vertices makes the read throw at
    [polygon[0]![0]]: the polygon and its iteration are stored by then and
    the box is cleared, the path is not replaced. *)
Lemma visionPolygon_empty_polygon_throws (s : Shape) (wd : World) (floor : FloorId) :
  floorId s = Some floor →
  visionIterations wd floor ≠ visionIteration s →
  visibility wd (_center s) VISION floor = [] →
  ∃ s' wd',
    get_visionPolygon (mkHeap s wd) = (Throw TypeError, mkHeap s' wd') ∧
    _visionPolygon s' = Some [] ∧ _visionBbox s' = None ∧ _visionPath s' = _visionPath s.
Proof.
  intros Hf Hne%Z.eqb_neq Hvis.
  destruct (get_visionPolygon_run s wd floor Hf) as (bbox & Hbbox & Heq).
  cbv zeta in Heq. rewrite Hne, !orb_true_r, Hvis in Heq. rewrite Hvis in Hbbox. subst bbox.
  eexists _, _. split; [exact Heq|]. done.
Qed.

Lemma visionPolygon_stale (s : Shape) (wd : World) (floor : FloorId) :
  floorId s = Some floor →
  visionIterations wd floor ≠ visionIteration s →
  let σ' := (get_visionPolygon (mkHeap s wd)).2 in
  calls_of get_visionPolygon (mkHeap s wd)
    = [call_computeVisibility (_center s) VISION floor] ∧
  _visionPolygon (this σ') = Some (visibility wd (_center s) VISION floor) ∧
  visionIteration (this σ') = visionIterations wd floor.
Proof.
  intros Hf Hne%Z.eqb_neq σ'. subst σ'.
  destruct (get_visionPolygon_run s wd floor Hf) as (bbox & _ & Heq).
  cbv zeta in Heq. rewrite Hne, !orb_true_r in Heq.
  rewrite (calls_of_app _ _ [call_computeVisibility (_center s) VISION floor]);
    rewrite Heq; cbn [_visionPolygon set__visionBbox set_visionIteration set__visionPolygon];
    destruct (visibility wd (_center s) VISION floor); done.
Qed.

Lemma visionPolygon_fresh (s : Shape) (wd : World) (floor : FloorId) :
  floorId s = Some floor →
  visionIterations wd floor = visionIteration s →
  is_Some (_visionPolygon s) →
  calls_of get_visionPolygon (mkHeap s wd) = [].
Proof.
  intros Hf Heqv%Z.eqb_eq [polygon Hpoly].
  destruct (get_visionPolygon_run s wd floor Hf) as (bbox & _ & Heq).
  cbv zeta in Heq. rewrite Heqv, Hpoly in Heq.
  apply calls_of_app. rewrite Heq, app_nil_r. cbn [bool_decide negb orb].
  rewrite (bool_decide_eq_false_2 (Some polygon = None)) by done.
  cbn [orb]. repeat case_match; done.
Qed.

(** C3: a read that sees another vision iteration than the stored one asks
    [computeVisibility] for the polygon from the shape's centre, keeps it
    and the iteration it saw; a read that sees the stored iteration and has
    a polygon asks nothing. *)
Theorem visionPolygon_recomputes_when_stale (s : Shape) (wd : World) (floor : FloorId) :
  floorId s = Some floor →
  let σ' := (get_visionPolygon (mkHeap s wd)).2 in
  (visionIterations wd floor ≠ visionIteration s →
     calls_of get_visionPolygon (mkHeap s wd)
       = [call_computeVisibility (_center s) VISION floor] ∧
     _visionPolygon (this σ') = Some (visibility wd (_center s) VISION floor) ∧
     visionIteration (this σ') = visionIterations wd floor) ∧
  (visionIterations wd floor = visionIteration s → is_Some (_visionPolygon s) →
     calls_of get_visionPolygon (mkHeap s wd) = []).
Proof.
  intros Hf σ'. split.
  - by apply visionPolygon_stale.
  - by apply visionPolygon_fresh.
Qed.

(** C5: once [resetVisionIteration] has run, a read on a floor whose
    counter is not negative recomputes, whatever the counter is. *)
Theorem resetVisionIteration_forces_recompute (s : Shape) (wd wd2 : World) (floor : FloorId) :
  floorId s = Some floor →
  0 ≤ visionIterations wd2 floor →
  ∃ s1,
    resetVisionIteration (mkHeap s wd) = (Return (), mkHeap s1 wd) ∧
    visionIteration s1 = -1 ∧
    calls_of get_visionPolygon (mkHeap s1 wd2)
      = [call_computeVisibility (_center s) VISION floor].
Proof.
  intros Hf Hpos. exists (set_visionIteration (-1) s). repeat split.
  apply (visionPolygon_stale (set_visionIteration (-1) s) wd2 floor Hf).
  cbn. lia.
Qed.

Lemma get_layer_run (s : Shape) (wd : World) :
  get_layer (mkHeap s wd) =
    (Return (match floorId s, layerName s with
             | Some f, Some l => (λ ly, (f, l, ly)) <$> layer_of s wd
             | _, _ => None
             end), mkHeap s wd).
Proof.
  unfold get_layer, get_floor, layer_of. run.
  destruct (floorId s) as [f|]; run; [|done].
  destruct (layerName s) as [l|]; cbn; destruct (floors wd !! f) as [fl|]; done.
Qed.

Lemma invalidate_run (s : Shape) (wd : World) (skip : bool) :
  layerName s = None ∨ is_Some (layer_of s wd) →
  invalidate skip (mkHeap s wd) =
    (Return (),
     mkHeap s (set_calls (calls wd ++ match floorId s, layerName s with
                                      | Some f, Some l => [call_layer_invalidate f l skip]
                                      | _, _ => []
                                      end) wd)).
Proof.
  intros Hl. unfold invalidate. run.
  destruct (layerName s) as [l|] eqn:Hn.
  - destruct Hl as [|[ly Hly]]; [done|]. run. rewrite get_layer_run, Hn, Hly.
    unfold layer_of in Hly. destruct (floorId s); [|done]. reflexivity.
  - run. destruct (floorId s); rewrite app_nil_r; destruct wd; reflexivity.
Qed.

(** X26: [updateShapeVision] on a shape without properties throws at once
    and leaves the heap as it was. *)
Lemma updateShapeVision_without_properties (s : Shape) (wd : World)
    (alteredMovement alteredVision : bool) :
  properties wd (id s) = None →
  updateShapeVision alteredMovement alteredVision (mkHeap s wd) = (Throw TypeError, mkHeap s wd).
Proof. intros Hp. unfold updateShapeVision. run. rewrite Hp. by run. Qed.

Lemma invalidate_without_layer (s : Shape) (wd : World) (skip : bool) :
  is_Some (layerName s) → layer_of s wd = None →
  invalidate skip (mkHeap s wd) = (Throw TypeError, mkHeap s wd).
Proof.
  intros [l Hl] Hly. unfold invalidate. run. rewrite Hl. run.
  rewrite get_layer_run, Hl, Hly. by destruct (floorId s).
Qed.

(** X27: [updateShapeVision] on a shape whose [layerName] is set while its
    layer does not resolve throws after the vision refresh and before the
    movement refresh. *)
Lemma updateShapeVision_without_layer (s : Shape) (wd : World) (props : ShapeProperties)
    (alteredMovement alteredVision : bool) :
  properties wd (id s) = Some props →
  is_Some (layerName s) → layer_of s wd = None →
  ∃ wd',
    updateShapeVision alteredMovement alteredVision (mkHeap s wd) = (Throw TypeError, mkHeap s wd') ∧
    calls wd' = calls wd
      ++ (if blocksVision props && negb alteredVision
          then triangulation_refresh VISION s else []).
Proof.
  intros Hp Hl Hly. unfold updateShapeVision, triangulation_refresh. run.
  rewrite Hp. run.
  destruct (blocksVision props && negb alteredVision), (floorId s) as [f|] eqn:Hf; run;
    (rewrite invalidate_without_layer by done);
    (eexists; split; [reflexivity|]); cbn [calls set_calls world];
    rewrite <- ?app_assoc, ?app_nil_r; reflexivity.
Qed.

(** C6: for each target kind whose blocker property is set and whose
    altered flag is false, [updateShapeVision] deletes the shape from the
    triangulation, adds it again at once and then bumps the counter of the
    shape's floor, if it has one; for any other target kind it makes no
    triangulation call and bumps nothing.  The vision refresh comes first,
    then the redraw requests, then the movement refresh. *)
Theorem updateShapeVision_calls (s : Shape) (wd : World) (props : ShapeProperties)
    (alteredMovement alteredVision : bool) :
  properties wd (id s) = Some props →
  layerName s = None ∨ is_Some (layer_of s wd) →
  ∃ wd',
    updateShapeVision alteredMovement alteredVision (mkHeap s wd) = (Return (), mkHeap s wd') ∧
    calls wd' = calls wd
      ++ (if blocksVision props && negb alteredVision
          then triangulation_refresh VISION s else [])
      ++ invalidate_calls s
      ++ [call_invalidateLightAllFloors]
      ++ (if blocksMovement props && negb alteredMovement
          then triangulation_refresh MOVEMENT s else []) ∧
    ∀ target,
      filter (λ c, concerns target c = true)
        (calls_of (updateShapeVision alteredMovement alteredVision) (mkHeap s wd))
      = if blocks target props && negb (altered_flag target alteredMovement alteredVision)
        then triangulation_refresh target s else [].
Proof.
  intros Hp Hl.
  assert (∃ wd', updateShapeVision alteredMovement alteredVision (mkHeap s wd) = (Return (), mkHeap s wd') ∧
    calls wd' = calls wd
      ++ ((if blocksVision props && negb alteredVision
          then triangulation_refresh VISION s else [])
      ++ invalidate_calls s
      ++ [call_invalidateLightAllFloors]
      ++ (if blocksMovement props && negb alteredMovement
          then triangulation_refresh MOVEMENT s else []))) as (wd' & Hrun & Hcalls).
  { unfold updateShapeVision. run. rewrite Hp. run.
    unfold triangulation_refresh, invalidate_calls.
    destruct (blocksVision props && negb alteredVision),
      (blocksMovement props && negb alteredMovement),
      (floorId s) as [f|] eqn:Hf; run;
      (rewrite invalidate_run by exact Hl); run; rewrite ?Hf;
      (eexists; split; [reflexivity|]);
      cbn [calls set_calls world]; destruct (layerName s);
      rewrite <- ?app_assoc; reflexivity. }
  exists wd'. split; [exact Hrun|]. split.
  { rewrite Hcalls, <- ?app_assoc. reflexivity. }
  intros target. rewrite (calls_of_app _ _ _ (eq_trans (f_equal (λ r, calls (world r.2)) Hrun) Hcalls)).
  unfold triangulation_refresh, invalidate_calls.
  destruct target, (blocksVision props && negb alteredVision) eqn:Hv,
      (blocksMovement props && negb alteredMovement) eqn:Hm,
      (floorId s) as [f|], (layerName s); cbn [blocks altered_flag]; rewrite ?Hv, ?Hm; reflexivity.
Qed.

Lemma write_layer_points_twice f l pts1 pts2 wd :
  write_layer_points f l pts2 (write_layer_points f l pts1 wd) = write_layer_points f l pts2 wd.
Proof.
  unfold write_layer_points, set_floors. cbn. f_equal.
  rewrite alter_alter_eq. apply alter_ext. intros fl _. cbn.
  rewrite alter_alter_eq. by apply alter_ext.
Qed.

Lemma write_layer_points_same s f l ly wd :
  floorId s = Some f → layerName s = Some l → layer_of s wd = Some ly →
  write_layer_points f l (layer_points ly) wd = wd.
Proof.
  unfold layer_of. intros -> ->. cbn. intros Hly.
  destruct (floors wd !! f) as [fl|] eqn:Hfl; [|done]. cbn in Hly.
  unfold write_layer_points. destruct wd; cbn in *. unfold set_floors; cbn. f_equal.
  apply map_eq. intros f'. rewrite lookup_alter. case_decide as Hff; [|done]. subst f'.
  rewrite Hfl. cbn. f_equal. apply map_eq. intros l'. rewrite lookup_alter.
  case_decide as Hll; [|done]. subst l'. rewrite Hly. cbn. by destruct ly.
Qed.

Lemma layer_of_write s f l pts wd :
  floorId s = Some f → layerName s = Some l → is_Some (layer_of s wd) →
  layer_of s (write_layer_points f l pts wd) = Some (mkLayer pts).
Proof.
  unfold layer_of. intros -> ->. cbn. intros [ly Hly].
  destruct (floors wd !! f) as [fl|] eqn:Hfl; [|done]. cbn in Hly.
  rewrite lookup_alter_eq, Hfl. cbn. by rewrite lookup_alter_eq, Hly.
Qed.

Lemma with_layer_points_run (s : Shape) (wd : World) g :
  with_layer_points g (mkHeap s wd) =
    (Return (),
     mkHeap s match floorId s, layerName s, layer_of s wd with
              | Some f, Some l, Some ly => write_layer_points f l (g (layer_points ly)) wd
              | _, _, _ => wd
              end).
Proof.
  unfold with_layer_points. run. rewrite get_layer_run.
  destruct (floorId s), (layerName s), (layer_of s wd); reflexivity.
Qed.

Lemma for_of_layer_points {A} (s : Shape) f l (body : A → Js unit)
    (g : gmap string (gset LocalId) → A → gmap string (gset LocalId)) :
  floorId s = Some f → layerName s = Some l →
  (∀ a wd ly, layer_of s wd = Some ly →
     body a (mkHeap s wd)
     = (Return (), mkHeap s (write_layer_points f l (g (layer_points ly) a) wd))) →
  ∀ items wd ly, layer_of s wd = Some ly →
    for_of items body (mkHeap s wd)
    = (Return (), mkHeap s (write_layer_points f l (foldl g (layer_points ly) items) wd)).
Proof.
  intros Hf Hl Hbody items. induction items as [|a items IH]; intros wd ly Hly.
  - cbn [for_of foldl]. run. by rewrite (write_layer_points_same s).
  - cbn [for_of foldl]. run. rewrite (Hbody a wd ly Hly).
    rewrite (IH _ (mkLayer (g (layer_points ly) a))).
    + by rewrite write_layer_points_twice.
    + apply layer_of_write; eauto.
Qed.

Lemma updateLayerPoints_run (s : Shape) (wd : World) f l ly :
  floorId s = Some f → layerName s = Some l → layer_of s wd = Some ly →
  updateLayerPoints (mkHeap s wd) =
    (Return (),
     mkHeap s (write_layer_points f l
       (foldl (enter_step (id s))
          (foldl (strip_step (id s)) (layer_points ly) (map_to_list (layer_points ly)))
          (_points s)) wd)).
Proof.
  intros Hf Hl Hly. unfold updateLayerPoints. run. rewrite get_layer_run, Hf, Hl, Hly. run.
  cbn [fmap option_fmap option_map].
  rewrite (for_of_layer_points s f l _ (strip_step (id s)) Hf Hl) with (ly := ly); [| |done].
  - run. unfold get_points. run.
    rewrite (for_of_layer_points s f l _ (enter_step (id s)) Hf Hl)
      with (ly := mkLayer (foldl (strip_step (id s)) (layer_points ly) (map_to_list (layer_points ly)))).
    + by rewrite write_layer_points_twice.
    + intros point wd' ly' Hly'. rewrite with_layer_points_run, Hf, Hl, Hly'. reflexivity.
    + apply layer_of_write; eauto.
  - intros [k ids] wd' ly' Hly'. unfold strip_step. cbn [fst snd].
    repeat case_bool_decide; rewrite ?with_layer_points_run, ?Hf, ?Hl, ?Hly'; try reflexivity.
    run. by rewrite (write_layer_points_same s).
Qed.

Lemma strip_spec i ids ids' :
  strip i ids = Some ids' →
  (i ∉ ids') ∧ (ids ≠ ∅ → ids' ≠ ∅) ∧ (∀ j, j ≠ i → (j ∈ ids' ↔ j ∈ ids)).
Proof.
  unfold strip. repeat case_bool_decide; intros [= <-].
  - split; [|split].
    { intros [_ Hn]%elem_of_difference. apply Hn. by apply elem_of_singleton. }
    2:{ intros j Hj. rewrite elem_of_difference, elem_of_singleton. tauto. }
    intros _ Hempty.
    assert (ids = {[i]}) as ->.
    { apply set_eq. intros j. rewrite elem_of_singleton. split; [|by intros ->].
      intros Hj. destruct (decide (j = i)) as [|Hji]; [done|].
      assert (j ∈ ids ∖ {[i]}) as Hd by (apply elem_of_difference; by rewrite elem_of_singleton).
      rewrite Hempty in Hd. by apply elem_of_empty in Hd. }
    match goal with Hs : size _ ≠ _ |- _ => apply Hs end. apply size_singleton.
  - split; [done|]. split; [done|]. done.
Qed.

Lemma strip_None i ids : strip i ids = None → ids = {[i]}.
Proof.
  unfold strip. repeat case_bool_decide; intros [=].
  match goal with Hs : size _ = 1%nat |- _ => apply size_1_elem_of in Hs as [j Hj] end.
  apply leibniz_equiv in Hj. subst ids.
  match goal with Hi : i ∈ {[j]} |- _ => by apply elem_of_singleton in Hi as -> end.
Qed.

(** C10: when the shape's layer resolves, [updateLayerPoints] leaves the
    shape's id under exactly the keys that are the stringified current
    points of the shape, keeps every set of the map non-empty, and leaves
    the other ids where they were. *)
Theorem updateLayerPoints_index (s : Shape) (wd : World) (f : FloorId) (l : LayerName)
    (ly : Layer) :
  floorId s = Some f → layerName s = Some l → layer_of s wd = Some ly →
  ∃ pts',
    updateLayerPoints (mkHeap s wd) = (Return (), mkHeap s (write_layer_points f l pts' wd)) ∧
    layer_of s (write_layer_points f l pts' wd) = Some (mkLayer pts') ∧
    (∀ k, keys_holding (id s) pts' k ↔ k ∈ JSON_stringify <$> _points s) ∧
    ((∀ k ids, layer_points ly !! k = Some ids → ids ≠ ∅) →
     ∀ k ids, pts' !! k = Some ids → ids ≠ ∅) ∧
    (∀ k, pts' !! k = Some ∅ → layer_points ly !! k = Some ∅) ∧
    (∀ k j, j ≠ id s → (keys_holding j pts' k ↔ keys_holding j (layer_points ly) k)).
Proof.
  intros Hf Hl Hly. eexists. split; [by apply updateLayerPoints_run|].
  split; [apply layer_of_write; eauto|].
  unfold keys_holding. repeat split.
  - intros (ids & Hk & Hin). rewrite enter_fold_lookup in Hk.
    case_decide; [done|]. rewrite strip_all_lookup in Hk.
    destruct (layer_points ly !! k) as [ids0|]; [|done]. cbn in Hk.
    by apply strip_spec in Hk as [? _].
  - intros Hk. eexists. rewrite enter_fold_lookup, decide_True by done.
    split; [done|]. apply elem_of_union. right. by apply elem_of_singleton.
  - intros Hne k ids. rewrite enter_fold_lookup. case_decide.
    + intros [= <-]. apply (non_empty_inhabited_L (id s)), elem_of_union.
      right. by apply elem_of_singleton.
    + rewrite strip_all_lookup. destruct (layer_points ly !! k) as [ids0|] eqn:Hk0; [|done].
      cbn. intros Hs%strip_spec. apply Hs. by eapply Hne.
  - intros k. rewrite enter_fold_lookup. case_decide.
    + intros [= Hempty]. exfalso. revert Hempty.
      apply (non_empty_inhabited_L (id s)), elem_of_union.
      right. by apply elem_of_singleton.
    + rewrite strip_all_lookup. destruct (layer_points ly !! k) as [ids0|] eqn:Hk0; [|done].
      cbn. intros (_ & Hs & _)%strip_spec. f_equal.
      destruct (decide (ids0 = ∅)) as [|Hne]; [done|]. by destruct (Hs Hne).
  - intros (ids & Hk & Hin). rewrite enter_fold_lookup, strip_all_lookup in Hk.
    destruct (layer_points ly !! k) as [ids0|] eqn:Hk0.
    + exists ids0. split; [done|]. cbn in Hk. destruct (strip (id s) ids0) as [ids1|] eqn:Hs.
      * apply strip_spec in Hs as (_ & _ & Hs). apply Hs; [done|].
        case_decide; [|by simplify_eq]. cbn in Hk. simplify_eq.
        by apply elem_of_union in Hin as [Hin|Hin%elem_of_singleton].
      * case_decide; [|done]. cbn in Hk. simplify_eq.
        by apply elem_of_union in Hin as [Hin%elem_of_empty|Hin%elem_of_singleton].
    + cbn in Hk. case_decide; [|done]. cbn in Hk. simplify_eq.
      by apply elem_of_union in Hin as [Hin%elem_of_empty|Hin%elem_of_singleton].
  - intros (ids0 & Hk0 & Hin). rewrite enter_fold_lookup, strip_all_lookup, Hk0. cbn.
    destruct (strip (id s) ids0) as [ids1|] eqn:Hs.
    + apply strip_spec in Hs as (_ & _ & Hs). case_decide; eexists; (split; [done|]); cbn.
      * apply elem_of_union. left. by apply Hs.
      * by apply Hs.
    + apply strip_None in Hs. subst ids0. by apply elem_of_singleton in Hin.
Qed.

Lemma for_of_keeps_this {A} (s : Shape) (items : list A) (body : A → Js unit) :
  (∀ a wd, ∃ wd', body a (mkHeap s wd) = (Return (), mkHeap s wd') ∧ calls wd' = calls wd) →
  ∀ wd, ∃ wd', for_of items body (mkHeap s wd) = (Return (), mkHeap s wd')
               ∧ calls wd' = calls wd.
Proof.
  intros Hbody. induction items as [|a items IH]; intros wd0.
  - by exists wd0.
  - cbn [for_of]. run. destruct (Hbody a wd0) as (wd1 & -> & Hc1).
    destruct (IH wd1) as (wd2 & -> & Hc2). exists wd2. split; [done|congruence].
Qed.

Lemma with_layer_points_keeps_this (s : Shape) g wd :
  ∃ wd', with_layer_points g (mkHeap s wd) = (Return (), mkHeap s wd') ∧ calls wd' = calls wd.
Proof.
  rewrite with_layer_points_run. eexists. split; [done|].
  by destruct (floorId s), (layerName s), (layer_of s wd).
Qed.

Lemma updateLayerPoints_keeps_this (s : Shape) (wd : World) :
  ∃ wd', updateLayerPoints (mkHeap s wd) = (Return (), mkHeap s wd') ∧ calls wd' = calls wd.
Proof.
  unfold updateLayerPoints. run. rewrite get_layer_run. run.
  match goal with
  | |- context [for_of ?items ?body (mkHeap s wd)] =>
    destruct (for_of_keeps_this s items body) with (wd := wd) as (wd1 & -> & Hc1)
  end.
  { intros point wd0. repeat case_bool_decide; try apply with_layer_points_keeps_this.
    by exists wd0. }
  unfold get_points. run.
  match goal with
  | |- context [for_of ?items ?body (mkHeap s wd1)] =>
    destruct (for_of_keeps_this s items body) with (wd := wd1) as (wd2 & -> & Hc2)
  end.
  { intros; apply with_layer_points_keeps_this. }
  exists wd2. split; [done|congruence].
Qed.

Lemma invalidatePoints_keeps_this (s : Shape) (wd : World) :
  ∃ wd', invalidatePoints (mkHeap s wd) = (Return (), mkHeap s wd').
Proof.
  unfold invalidatePoints. run. rewrite get_layer_run.
  destruct (match floorId s with Some _ => _ | None => _ end) as [[[f l] ly]|]; run;
    (destruct (isSnappable s); [|by eexists]).
  - edestruct updateLayerPoints_keeps_this as (wd' & -> & _). by eexists.
  - edestruct updateLayerPoints_keeps_this as (wd' & -> & _). by eexists.
Qed.

Lemma invalidateDrawLayerOfToken_keeps_this (s : Shape) (wd : World) :
  ∃ wd', invalidateDrawLayerOfToken (mkHeap s wd) = (Return (), mkHeap s wd').
Proof.
  unfold invalidateDrawLayerOfToken, get_floor. run.
  case_bool_decide; run; [|by eexists].
  destruct (floorId s) as [f|]; run; [|by eexists].
  destruct (floors wd !! f) as [fl|]; cbn [fmap option_fmap option_map]; [|by eexists].
  destruct (fl !! LayerName_Draw); run; by eexists.
Qed.

Lemma visionPolygon_without_polygon (s : Shape) (wd : World) (floor : FloorId) :
  floorId s = Some floor → _visionPolygon s = None →
  calls_of get_visionPolygon (mkHeap s wd) = [call_computeVisibility (_center s) VISION floor].
Proof.
  intros Hf Hnone.
  destruct (get_visionPolygon_run s wd floor Hf) as (bbox & _ & Heq).
  cbv zeta in Heq. rewrite Hnone in Heq. cbn [bool_decide orb] in Heq.
  rewrite (bool_decide_eq_true_2 (None = None)) in Heq by done. cbn [orb] in Heq.
  apply calls_of_app. rewrite Heq. repeat case_match; done.
Qed.

End Run.

(** ** The statements at the sample shape *)

Section Samples.
#[local] Existing Instances sample_rects sample_class.

(** C1, as stated, fails for the [angle] setter: the sample shape has a
    polygon computed at the floor's present iteration; after [angle = 1]
    the next read asks [computeVisibility] nothing. *)
Lemma angle_setter_keeps_cached_polygon :
  floorId sample_shape = Some 0%nat ∧
  0 ≤ visionIterations sample_world 0%nat ∧
  (set_angle 1 (mkHeap sample_shape sample_world)).1 = Return () ∧
  _angle (this (set_angle 1 (mkHeap sample_shape sample_world)).2) = 1 ∧
  calls_of get_visionPolygon (set_angle 1 (mkHeap sample_shape sample_world)).2 = [].
Proof. vm_compute. repeat split; discriminate. Qed.

Lemma visionPolygon_referentially_stable_witness :
  let first_read := get_visionPolygon (mkHeap stale_shape sample_world) in
  let path := mkPath2D 1 [moveTo (-20) (-20); lineTo (-20) (-20); lineTo 20 (-20);
                          lineTo 20 20; lineTo (-20) 20; closePath] in
  first_read.1 = Return path ∧
  get_visionPolygon first_read.2 = (Return path, first_read.2).
Proof.
  intros first_read path. split; [reflexivity|].
  exact (visionPolygon_referentially_stable stale_shape sample_world 0%nat path
           (this first_read.2) (world first_read.2) (world first_read.2)
           eq_refl eq_refl eq_refl eq_refl).
Defined.

Lemma visionPolygon_recomputes_when_stale_witness :
  calls_of get_visionPolygon (mkHeap stale_shape sample_world)
    = [call_computeVisibility (toGP 5 5) VISION 0%nat] ∧
  calls_of get_visionPolygon (mkHeap sample_shape sample_world) = [].
Proof.
  split.
  - apply (visionPolygon_recomputes_when_stale stale_shape sample_world 0%nat eq_refl).
    discriminate.
  - apply (visionPolygon_recomputes_when_stale sample_shape sample_world 0%nat eq_refl).
    + reflexivity.
    + eexists. reflexivity.
Defined.

Lemma visionPolygon_without_floor_witness :
  floorId unplaced_shape = None ∧
  ∃ path wd',
    get_visionPolygon (mkHeap unplaced_shape sample_world)
      = (Return path, mkHeap unplaced_shape wd') ∧
    path_cmds path = [] ∧
    calls wd' = calls sample_world ∧
    wd' = set_path2d_count 2 sample_world.
Proof.
  split; [reflexivity|].
  apply (visionPolygon_without_floor unplaced_shape sample_world). reflexivity.
Defined.

Lemma resetVisionIteration_forces_recompute_witness :
  ∃ s1,
    resetVisionIteration (mkHeap sample_shape sample_world) = (Return (), mkHeap s1 sample_world) ∧
    visionIteration s1 = -1 ∧
    calls_of get_visionPolygon (mkHeap s1 sample_world)
      = [call_computeVisibility (toGP 5 5) VISION 0%nat].
Proof.
  apply (resetVisionIteration_forces_recompute sample_shape sample_world sample_world 0%nat).
  - reflexivity.
  - cbn. lia.
Defined.

Lemma updateShapeVision_calls_witness :
  ∃ wd',
    updateShapeVision false true (mkHeap sample_shape sample_world)
      = (Return (), mkHeap sample_shape wd') ∧
    calls wd' = [call_layer_invalidate 0 "tokens" true; call_invalidateLightAllFloors;
                 call_deleteFromTriangulation MOVEMENT 7; call_addToTriangulation MOVEMENT 7;
                 call_recalculateMovement 0] ∧
    ∀ target,
      filter (λ c, concerns target c = true)
        (calls_of (updateShapeVision false true) (mkHeap sample_shape sample_world))
      = if blocks target (mkProps true true true) && negb (altered_flag target false true)
        then triangulation_refresh target sample_shape else [].
Proof.
  apply (updateShapeVision_calls sample_shape sample_world (mkProps true true true) false true).
  - reflexivity.
  - right. eexists. reflexivity.
Defined.

Lemma setPositionRepresentation_empty_witness :
  setPositionRepresentation (mkPosition 1 []) (mkHeap sample_shape sample_world)
  = (Return (), mkHeap sample_shape sample_world).
Proof. apply setPositionRepresentation_empty. reflexivity. Defined.

Lemma updateLayerPoints_index_witness :
  ∃ pts',
    updateLayerPoints (mkHeap sample_shape sample_world)
      = (Return (), mkHeap sample_shape (write_layer_points 0 "tokens" pts' sample_world)) ∧
    layer_of sample_shape (write_layer_points 0 "tokens" pts' sample_world)
      = Some (mkLayer pts') ∧
    (∀ k, keys_holding 7 pts' k ↔ k ∈ ["[5,5]"]) ∧
    ((∀ k ids, ({[ "[5,5]" := {[ 7%nat ]}; "[1,1]" := {[ 7%nat; 8%nat ]} ]}
                  : gmap string (gset nat)) !! k = Some ids → ids ≠ ∅) →
     ∀ k ids, pts' !! k = Some ids → ids ≠ ∅) ∧
    (∀ k, pts' !! k = Some ∅ →
          ({[ "[5,5]" := {[ 7%nat ]}; "[1,1]" := {[ 7%nat; 8%nat ]} ]}
             : gmap string (gset nat)) !! k = Some ∅) ∧
    (∀ k j, j ≠ 7%nat →
       (keys_holding j pts' k
        ↔ keys_holding j {[ "[5,5]" := {[ 7%nat ]}; "[1,1]" := {[ 7%nat; 8%nat ]} ]} k)).
Proof.
  exact (updateLayerPoints_index sample_shape sample_world 0%nat "tokens"
           (mkLayer {[ "[5,5]" := {[ 7%nat ]}; "[1,1]" := {[ 7%nat; 8%nat ]} ]})
           eq_refl eq_refl eq_refl).
Defined.

End Samples.

(** * Further properties of the class *)

(** ** Looking up a vertex *)

Lemma near_dec_spec (p : GlobalPoint) (delta : number) (point : Point) :
  (Z.abs (x p - point.1) <=? delta) && (Z.abs (y p - point.2) <=? delta) = true
  ↔ near p delta point.
Proof. unfold near. rewrite andb_true_iff, !Z.leb_le. tauto. Qed.

Lemma getPointIndex_from_spec (idx : number) (points : list Point) (p : GlobalPoint)
    (delta : number) :
  (getPointIndex_from idx points p delta = -1 ∧ ∀ point, point ∈ points → ¬ near p delta point)
  ∨ ∃ (i : nat) point,
      getPointIndex_from idx points p delta = idx + Z.of_nat i ∧
      points !! i = Some point ∧ near p delta point ∧
      ∀ (j : nat) q, (j < i)%nat → points !! j = Some q → ¬ near p delta q.
Proof.
  revert idx. induction points as [|point rest IH]; intros idx; cbn [getPointIndex_from].
  - left. split; [done|]. intros point Hin. by apply elem_of_nil in Hin.
  - destruct (_ && _) eqn:Hnear.
    + right. exists 0%nat, point. rewrite Z.add_0_r. apply near_dec_spec in Hnear.
      split; [done|]. split; [done|]. split; [done|]. intros j q Hj. lia.
    + assert (¬ near p delta point) as Hfar.
      { intros Hn%near_dec_spec. congruence. }
      destruct (IH (idx + 1)) as [[-> Hall]|(i & q & -> & Hi & Hq & Hfirst)].
      * left. split; [done|]. intros q [->|Hin]%elem_of_cons; auto.
      * right. exists (S i), q. split; [lia|]. split; [done|]. split; [done|].
        intros [|j] q' Hj; cbn; [by intros [= <-]|]. apply Hfirst. lia.
Qed.

(** X1: [getPointIndex] answers -1 exactly when no point of the shape is
    within [delta] of [p] on both axes; otherwise it answers the index of
    the first such point. *)
Theorem getPointIndex_first_match (s : Shape) (p : GlobalPoint) (delta : number) :
  (getPointIndex s p delta = -1 ∧ ∀ point, point ∈ _points s → ¬ near p delta point)
  ∨ ∃ (i : nat) point,
      getPointIndex s p delta = Z.of_nat i ∧
      _points s !! i = Some point ∧ near p delta point ∧
      ∀ (j : nat) q, (j < i)%nat → _points s !! j = Some q → ¬ near p delta q.
Proof. apply (getPointIndex_from_spec 0). Qed.

(** X2: looking up a vertex of the shape with [delta = 0] answers an index
    that holds that very vertex, the first one if the vertex occurs twice. *)
Theorem getPointIndex_of_vertex (s : Shape) (i : nat) (point : Point) :
  _points s !! i = Some point →
  ∃ j : nat,
    getPointIndex s (toGP_array point) 0 = Z.of_nat j ∧ (j ≤ i)%nat ∧
    _points s !! j = Some point.
Proof.
  intros Hi.
  assert (near (toGP_array point) 0 point) as Hself.
  { unfold near, toGP_array. cbn. lia. }
  destruct (getPointIndex_from_spec 0 (_points s) (toGP_array point) 0)
    as [[_ Hall]|(j & q & Hj & Hq & Hnear & Hfirst)].
  - destruct (Hall point); [|done]. apply list_elem_of_lookup. eauto.
  - exists j. split; [exact Hj|].
    assert (q = point) as ->.
    { destruct q, point. unfold near, toGP_array in Hnear. cbn in Hnear. f_equal; lia. }
    split; [|done]. destruct (decide (j ≤ i)%nat); [done|].
    destruct (Hfirst i point); [lia|done|done].
Qed.

(** X3: with a negative [delta] no point matches and the answer is -1. *)
Theorem getPointIndex_negative_delta (s : Shape) (p : GlobalPoint) (delta : number) :
  delta < 0 → getPointIndex s p delta = -1.
Proof.
  intros Hneg.
  destruct (getPointIndex_from_spec 0 (_points s) p delta)
    as [[Hr _]|(j & q & _ & _ & [Hnear _] & _)]; [done|lia].
Qed.

(** ** The box around the points *)

Lemma getAABB_step_extremes seen acc point :
  seen ≠ [] →
  extremes_of seen acc → extremes_of (seen ++ [point]) (getAABB_step acc point).
Proof.
  destruct acc as [[[minx maxx] miny] maxy]. intros Hne Hacc.
  unfold extremes_of in Hacc. destruct Hacc as (Hin & Hl & Hr & Ht & Hb).
  assert (minx ≤ maxx ∧ miny ≤ maxy) as [Hx Hy].
  { destruct seen as [|q seen]; [congruence|]. specialize (Hin q (list_elem_of_here _ _)). lia. }
  unfold getAABB_step, extremes_of.
  assert (∀ v, (∃ p, p ∈ seen ∧ v p) → ∃ p, p ∈ seen ++ [point] ∧ v p) as Hold.
  { intros v (p & ? & ?). exists p. split; [apply elem_of_app; by left|done]. }
  assert (point ∈ seen ++ [point]) as Hnew
    by (apply elem_of_app; right; by apply list_elem_of_singleton).
  destruct (Z.ltb_spec point.1 minx), (Z.gtb_spec point.1 maxx),
    (Z.ltb_spec point.2 miny), (Z.gtb_spec point.2 maxy);
    (split; [intros p [Hp| ->%list_elem_of_singleton]%elem_of_app;
               [specialize (Hin p Hp)|]; lia|]);
    repeat split; first [by apply Hold | by exists point].
Qed.

Lemma getAABB_fold_extremes points seen acc :
  seen ≠ [] →
  extremes_of seen acc →
  extremes_of (seen ++ points) (foldl getAABB_step acc points).
Proof.
  revert seen acc. induction points as [|point points IH]; intros seen acc Hne Hacc.
  - by rewrite app_nil_r.
  - cbn [foldl]. rewrite cons_middle, app_assoc. apply IH.
    + by destruct seen.
    + by apply getAABB_step_extremes.
Qed.

Lemma getAABB_extremes_box (s : Shape) (delta : number) :
  match _points s with
  | [] => getAABB s delta = mkBoundingRect (_refPoint s) 5 5
  | points => extremes_box_delta points delta (getAABB s delta)
  end.
Proof.
  unfold getAABB. destruct (_points s) as [|firstPoint rest]; [done|].
  pose proof (getAABB_fold_extremes rest [firstPoint]
                (firstPoint.1, firstPoint.1, firstPoint.2, firstPoint.2)) as Hfold.
  destruct (foldl _ _ _) as [[[minx maxx] miny] maxy].
  exists minx, maxx, miny, maxy. split; [|done].
  apply Hfold; [done|]. unfold extremes_of.
  split; [intros p ->%list_elem_of_singleton; lia|].
  repeat split; exists firstPoint; (split; [by apply list_elem_of_singleton | done]).
Qed.

(** X4: for a shape with points, [getBoundingBox(delta)] has its corner
    at the least x and the least y among the points, each less [delta], and
    as sides the differences between the greatest and the least x and y,
    each plus twice [delta]; all four extremes are coordinates of points of
    the shape. *)
Theorem getBoundingBox_extremes (s : Shape) (delta : number) :
  _points s ≠ [] →
  ∃ minx maxx miny maxy,
    (∀ p, p ∈ _points s → minx ≤ p.1 ≤ maxx ∧ miny ≤ p.2 ≤ maxy) ∧
    (∃ p, p ∈ _points s ∧ p.1 = minx) ∧ (∃ p, p ∈ _points s ∧ p.1 = maxx) ∧
    (∃ p, p ∈ _points s ∧ p.2 = miny) ∧ (∃ p, p ∈ _points s ∧ p.2 = maxy) ∧
    getBoundingBox s delta
    = mkBoundingRect (toGP (minx - delta) (miny - delta))
        (maxx - minx + 2 * delta) (maxy - miny + 2 * delta).
Proof.
  intros Hne. pose proof (getAABB_extremes_box s delta) as Hbox.
  destruct (_points s) as [|firstPoint rest]; [done|].
  destruct Hbox as (minx & maxx & miny & maxy & (Hin & Hl & Hr & Ht & Hb) & Heq).
  by exists minx, maxx, miny, maxy.
Qed.

(** X5: [getBoundingBox(delta)] is the box for [delta = 0] grown by
    [delta] on every side; a shape without points gets the 5 by 5 box at
    its reference point, whatever [delta] is. *)
Theorem getBoundingBox_delta (s : Shape) (delta : number) :
  match _points s with
  | [] => getBoundingBox s delta = mkBoundingRect (_refPoint s) 5 5
  | _ =>
    let r := getBoundingBox s 0 in
    getBoundingBox s delta
    = mkBoundingRect (toGP (x (topLeft r) - delta) (y (topLeft r) - delta))
        (w r + 2 * delta) (h r + 2 * delta)
  end.
Proof.
  unfold getBoundingBox, getAABB. destruct (_points s) as [|firstPoint rest]; [done|].
  destruct (foldl _ _ _) as [[[minx maxx] miny] maxy]. cbn.
  by rewrite !Z.sub_0_r, !Z.add_0_r.
Qed.

Lemma rect_within_refl r : rect_within r r.
Proof. unfold rect_within. lia. Qed.

Lemma rect_within_trans r1 r2 r3 : rect_within r1 r2 → rect_within r2 r3 → rect_within r1 r3.
Proof. unfold rect_within. lia. Qed.

(** ** The points index, as a map *)

Lemma set_calls_twice (l l' : list Call) (wd : World) :
  set_calls l (set_calls l' wd) = set_calls l wd.
Proof. reflexivity. Qed.

Lemma set_calls_same (wd : World) : set_calls (calls wd) wd = wd.
Proof. by destruct wd. Qed.

Lemma layer_points_after_lookup (s : Shape) (pts : gmap string (gset LocalId)) k :
  layer_points_after s pts !! k
  = if decide (k ∈ JSON_stringify <$> _points s)
    then Some (default ∅ (pts !! k ≫= strip (id s)) ∪ {[id s]})
    else pts !! k ≫= strip (id s).
Proof. unfold layer_points_after. by rewrite enter_fold_lookup, strip_all_lookup. Qed.

Lemma strip_without (i : LocalId) (ids : gset LocalId) : i ∉ ids → strip i ids = Some ids.
Proof. intros Hi. unfold strip. by rewrite bool_decide_eq_false_2. Qed.

Lemma strip_with (i : LocalId) (ids : gset LocalId) :
  i ∉ ids → strip i (ids ∪ {[i]}) = if decide (ids = ∅) then None else Some ids.
Proof.
  intros Hi. unfold strip.
  rewrite bool_decide_eq_true_2 by (apply elem_of_union; right; by apply elem_of_singleton).
  assert ((ids ∪ {[i]}) ∖ {[i]} = ids) as Hdiff.
  { apply set_eq. intros j. rewrite elem_of_difference, elem_of_union, elem_of_singleton.
    split; [tauto|]. intros Hj. split; [tauto|]. by intros ->. }
  rewrite Hdiff. case_decide as He.
  - subst ids. rewrite (left_id_L ∅ (∪)), size_singleton. by rewrite bool_decide_eq_true_2.
  - rewrite bool_decide_eq_false_2; [done|].
    rewrite size_union by (intros j Hj ->%elem_of_singleton; done).
    rewrite size_singleton. intros Hs. apply He.
    assert (size ids = 0%nat) as Hz by lia.
    by apply size_empty_iff, leibniz_equiv in Hz.
Qed.

Lemma layer_points_after_idem (s : Shape) (pts : gmap string (gset LocalId)) :
  layer_points_after s (layer_points_after s pts) = layer_points_after s pts.
Proof.
  apply map_eq. intros k. rewrite (layer_points_after_lookup s (layer_points_after s pts)).
  rewrite !layer_points_after_lookup.
  assert (∀ ids, pts !! k ≫= strip (id s) = Some ids → id s ∉ ids) as Hout.
  { intros ids. destruct (pts !! k) as [ids0|]; [|done]. cbn. by intros [? _]%strip_spec. }
  case_decide.
  - cbn. destruct (pts !! k ≫= strip (id s)) as [ids|] eqn:Hk; cbn.
    + rewrite strip_with by auto. case_decide; by subst.
    + rewrite strip_with by apply not_elem_of_empty. by rewrite decide_True.
  - destruct (pts !! k ≫= strip (id s)) as [ids|] eqn:Hk; cbn; [|done].
    by rewrite strip_without by auto.
Qed.

Section More.
Context {rects : BoundingRectOps} {cls : ShapeClass} {math : MathOps} {canvas : CanvasOps}.

(** ** The box around the auras *)

Lemma getAuraAABB_step_square (only : bool) (s : Shape) (wd : World) aabb aura :
  getAuraAABB_step only s wd aabb aura
  = if only && negb (visionSource aura) then aabb else union aabb (aura_square s wd aura).
Proof. reflexivity. Qed.

Lemma getAuraAABB_vision_sources (s : Shape) (wd : World) :
  getAuraAABB true s wd
  = foldl union (getAABB s 0)
      (aura_square s wd <$> filter (λ aura, visionSource aura = true) (auras wd (id s))).
Proof.
  unfold getAuraAABB.
  generalize (getAABB s 0). induction (auras wd (id s)) as [|aura l IH]; intros aabb; [done|].
  cbn [foldl]. rewrite filter_cons, getAuraAABB_step_square.
  destruct (visionSource aura) eqn:Hv; cbn [andb negb].
  - rewrite decide_True by done. cbn [foldl fmap list_fmap]. apply IH.
  - rewrite decide_False by done. apply IH.
Qed.

(** X6: the aura box restricted to vision sources is the full aura box
    the shape would have if it only had its vision-source auras. *)
Theorem getAuraAABB_only_vision_sources (s : Shape) (wd : World) :
  getAuraAABB true s wd = getAuraAABB false s (only_vision_sources wd).
Proof.
  unfold getAuraAABB. cbn [auras only_vision_sources with_auras].
  generalize (getAABB s 0). induction (auras wd (id s)) as [|aura l IH]; intros aabb; [done|].
  cbn [foldl]. rewrite filter_cons. rewrite getAuraAABB_step_square.
  destruct (visionSource aura) eqn:Hv; cbn [andb negb].
  - rewrite decide_True by done. cbn [foldl]. rewrite IH. f_equal.
  - rewrite decide_False by done. apply IH.
Qed.

(** X7: when [union] yields a rectangle around both of its arguments, the
    aura box lies around the shape's own box and around the square of every
    aura it counts. *)
Theorem getAuraAABB_encloses (only : bool) (s : Shape) (wd : World) :
  (∀ a b, rect_within a (union a b) ∧ rect_within b (union a b)) →
  rect_within (getAABB s 0) (getAuraAABB only s wd) ∧
  ∀ aura, aura ∈ auras wd (id s) → (only = true → visionSource aura = true) →
    rect_within (aura_square s wd aura) (getAuraAABB only s wd).
Proof.
  intros Hunion. unfold getAuraAABB.
  assert (∀ l aabb, rect_within aabb (foldl (getAuraAABB_step only s wd) aabb l)) as Hgrow.
  { induction l as [|aura l IH]; intros aabb; [apply rect_within_refl|].
    cbn [foldl]. eapply rect_within_trans; [|apply IH].
    rewrite getAuraAABB_step_square. destruct (only && negb (visionSource aura)).
    - apply rect_within_refl.
    - apply Hunion. }
  split; [apply Hgrow|].
  generalize (getAABB s 0). induction (auras wd (id s)) as [|a l IH]; intros aabb aura Hin Hcount.
  - by apply elem_of_nil in Hin.
  - cbn [foldl]. apply elem_of_cons in Hin as [->|Hin]; [|by apply IH].
    eapply rect_within_trans; [|apply Hgrow].
    rewrite getAuraAABB_step_square.
    destruct only; cbn [andb]; [rewrite Hcount by done; cbn [negb]|]; apply Hunion.
Qed.

(** ** [visibleInCanvas] *)

(** X9: [visibleInCanvas] answers true exactly when auras are included and
    some aura with a positive value or dim has a visible square around the
    centre; without auras, or with [includeAuras] off, it answers false. *)
Theorem visibleInCanvas_iff (s : Shape) (wd : World) (max : number * number)
    (includeAuras : bool) :
  visibleInCanvas s wd max includeAuras = true ↔
  includeAuras = true ∧
  ∃ aura, aura ∈ auras wd (id s) ∧ (0 < value aura ∨ 0 < dim aura) ∧
          rect_visibleInCanvas wd (aura_area s wd aura) max = true.
Proof.
  unfold visibleInCanvas. destruct includeAuras; [|split; [done|by intros [? _]]].
  induction (auras wd (id s)) as [|aura l IH]; cbn [visibleInCanvas_auras].
  - split; [done|]. intros (_ & aura & Hin & _). by apply elem_of_nil in Hin.
  - fold (aura_area s wd aura).
    destruct ((value aura >? 0) || (dim aura >? 0)) eqn:Hpos.
    + destruct (rect_visibleInCanvas wd (aura_area s wd aura) max) eqn:Hvis.
      * split; [|done]. intros _. split; [done|]. exists aura.
        apply orb_true_iff in Hpos as [?%Z.gtb_lt|?%Z.gtb_lt];
          (split; [apply list_elem_of_here|]; split; [lia|done]).
      * rewrite IH. split; intros (_ & a & Hin & Ha); (split; [done|]); exists a.
        -- split; [by apply list_elem_of_further|done].
        -- apply elem_of_cons in Hin as [->|Hin]; [|done]. destruct Ha; congruence.
    + rewrite IH. apply orb_false_iff in Hpos as [Hv Hd].
      split; intros (_ & a & Hin & Ha); (split; [done|]); exists a.
      -- split; [by apply list_elem_of_further|done].
      -- apply elem_of_cons in Hin as [->|Hin]; [|done].
         destruct Ha as [[Ha|Ha] _]; apply Z.gtb_lt in Ha; congruence.
Qed.

(** ** [updateLayerPoints], once more *)

Lemma for_of_idle {A} (σ : Heap) (items : list A) (body : A → Js unit) :
  (∀ a, body a σ = (Return (), σ)) → for_of items body σ = (Return (), σ).
Proof.
  intros Hbody. induction items as [|a items IH]; [done|].
  cbn [for_of]. run. by rewrite Hbody.
Qed.

Lemma updateLayerPoints_exact (s : Shape) (wd : World) :
  updateLayerPoints (mkHeap s wd) = (Return (), mkHeap s (updateLayerPoints_world s wd)).
Proof.
  unfold updateLayerPoints_world.
  destruct (floorId s) as [f|] eqn:Hf, (layerName s) as [l|] eqn:Hl,
    (layer_of s wd) as [ly|] eqn:Hly;
    try by apply updateLayerPoints_run.
  all: unfold updateLayerPoints; run; rewrite get_layer_run, ?Hf, ?Hl, ?Hly; run;
    cbn [fmap option_fmap option_map for_of]; run; unfold get_points; run;
    apply for_of_idle; intros point; rewrite with_layer_points_run, ?Hf, ?Hl, ?Hly; done.
Qed.

Lemma updateLayerPoints_world_layer_of (s : Shape) (wd : World) :
  layer_of s (updateLayerPoints_world s wd)
  = (λ ly, mkLayer (layer_points_after s (layer_points ly))) <$> layer_of s wd.
Proof.
  unfold updateLayerPoints_world.
  destruct (floorId s) as [f|] eqn:Hf, (layerName s) as [l|] eqn:Hl,
    (layer_of s wd) as [ly|] eqn:Hly; cbn; rewrite ?Hly; try done;
    try (exfalso; unfold layer_of in Hly; rewrite ?Hf, ?Hl in Hly; by cbn in Hly).
  by apply layer_of_write.
Qed.

(** X10: [updateLayerPoints] is idempotent: a second run returns the heap
    the first run left. *)
Theorem updateLayerPoints_idempotent (s : Shape) (wd : World) :
  updateLayerPoints (updateLayerPoints (mkHeap s wd)).2 = updateLayerPoints (mkHeap s wd).
Proof.
  rewrite !updateLayerPoints_exact. cbn [snd]. rewrite updateLayerPoints_exact. do 2 f_equal.
  unfold updateLayerPoints_world at 1. rewrite updateLayerPoints_world_layer_of.
  destruct (floorId s) as [f|] eqn:Hf; [|done].
  destruct (layerName s) as [l|] eqn:Hl; [|done].
  destruct (layer_of s wd) as [ly|] eqn:Hly; cbn [fmap option_fmap option_map]; [|done].
  unfold updateLayerPoints_world. rewrite Hf, Hl, Hly. cbn [layer_points].
  by rewrite write_layer_points_twice, layer_points_after_idem.
Qed.

(** X11: [updateLayerPoints] never throws and never touches the shape;
    in the world it changes the floors only, and there only the layer the
    shape is on; when that layer does not resolve it changes nothing. *)
Theorem updateLayerPoints_frame (s : Shape) (wd : World) :
  ∃ wd',
    updateLayerPoints (mkHeap s wd) = (Return (), mkHeap s wd') ∧
    set_floors (floors wd) wd' = wd ∧
    (layer_of s wd = None → wd' = wd) ∧
    ∀ f l, (floorId s, layerName s) ≠ (Some f, Some l) →
      floors wd' !! f ≫= (.!! l) = floors wd !! f ≫= (.!! l).
Proof.
  exists (updateLayerPoints_world s wd). split; [apply updateLayerPoints_exact|].
  unfold updateLayerPoints_world.
  destruct (floorId s) as [f0|] eqn:Hf, (layerName s) as [l0|] eqn:Hl,
    (layer_of s wd) as [ly|] eqn:Hly;
    try (split; [by destruct wd|]; split; done).
  split; [by destruct wd|]. split; [done|].
  intros f l Hne. cbn [floors write_layer_points set_floors].
  rewrite lookup_alter. case_decide as Hff; [|done]. subst f0.
  destruct (floors wd !! f) as [fl|]; [|done]. cbn.
  rewrite lookup_alter. case_decide as Hll; [|done]. congruence.
Qed.


(** ** [invalidatePoints], [invalidate] and the setters, call by call *)

Lemma invalidatePoints_exact (s : Shape) (wd : World) :
  invalidatePoints (mkHeap s wd) = (Return (), mkHeap s (invalidatePoints_world s wd)).
Proof.
  unfold invalidatePoints, invalidatePoints_world, updateSectors_calls. run.
  rewrite get_layer_run.
  destruct (floorId s) as [f|] eqn:Hf, (layerName s) as [l|] eqn:Hl,
    (layer_of s wd) as [ly|] eqn:Hly; cbn [fmap option_fmap option_map]; run;
    rewrite ?app_nil_r, ?set_calls_same;
    (destruct (isSnappable s); [apply updateLayerPoints_exact|done]).
Qed.

Lemma invalidatePoints_world_calls (s : Shape) (wd : World) :
  calls (invalidatePoints_world s wd) = calls wd ++ updateSectors_calls s wd.
Proof.
  unfold invalidatePoints_world, updateLayerPoints_world.
  destruct (isSnappable s); [|done]. by repeat case_match.
Qed.

Lemma invalidatePoints_world_properties (s : Shape) (wd : World) :
  properties (invalidatePoints_world s wd) = properties wd.
Proof.
  unfold invalidatePoints_world, updateLayerPoints_world.
  destruct (isSnappable s); [|done]. by repeat case_match.
Qed.

Lemma invalidatePoints_world_frame (s : Shape) (wd : World) :
  set_floors (floors wd) (set_calls (calls wd) (invalidatePoints_world s wd)) = wd.
Proof.
  unfold invalidatePoints_world, updateLayerPoints_world.
  destruct (isSnappable s); repeat case_match; by destruct wd.
Qed.

Lemma invalidatePoints_world_iterations (s : Shape) (wd : World) :
  visionIterations (invalidatePoints_world s wd) = visionIterations wd ∧
  floorState_iteration (invalidatePoints_world s wd) = floorState_iteration wd.
Proof.
  unfold invalidatePoints_world, updateLayerPoints_world.
  destruct (isSnappable s); [|done]. by repeat case_match.
Qed.

Lemma invalidatePoints_world_has_layer (s : Shape) (wd : World) (f : FloorId)
    (l : LayerName) :
  is_Some (floors (invalidatePoints_world s wd) !! f ≫= (.!! l))
  ↔ is_Some (floors wd !! f ≫= (.!! l)).
Proof.
  unfold invalidatePoints_world, updateLayerPoints_world.
  destruct (isSnappable s); [|done]. repeat case_match; try done.
  cbn [floors write_layer_points set_floors set_calls].
  rewrite lookup_alter. case_decide as Hf; [|done]. subst.
  destruct (floors wd !! f) as [fl|]; [|done]. cbn.
  rewrite lookup_alter. case_decide as Hl; [|done]. subst.
  by rewrite fmap_is_Some.
Qed.

Lemma invalidatePoints_world_layer_of (s s' : Shape) (wd : World) :
  is_Some (layer_of s' (invalidatePoints_world s wd)) ↔ is_Some (layer_of s' wd).
Proof.
  unfold layer_of. destruct (floorId s') as [f|]; [|done].
  destruct (layerName s') as [l|]; [|done]. cbn.
  apply invalidatePoints_world_has_layer.
Qed.

Lemma draw_layer_calls_invalidatePoints_world (s s' : Shape) (wd : World) :
  draw_layer_calls s' (invalidatePoints_world s wd) = draw_layer_calls s' wd.
Proof.
  unfold draw_layer_calls. rewrite invalidatePoints_world_properties.
  destruct (properties wd (id s')) as [props|]; [|done].
  destruct (floorId s') as [f|]; [|done].
  by rewrite (bool_decide_ext _ _ (invalidatePoints_world_has_layer s wd f LayerName_Draw)).
Qed.

Lemma invalidateDrawLayerOfToken_exact (s : Shape) (wd : World) :
  invalidateDrawLayerOfToken (mkHeap s wd)
  = (Return (), mkHeap s (set_calls (calls wd ++ draw_layer_calls s wd) wd)).
Proof.
  unfold invalidateDrawLayerOfToken, draw_layer_calls, get_floor. run.
  destruct (properties wd (id s)) as [[tok mov vis]|]; cbn [fmap option_fmap option_map isToken];
    [destruct tok|]; cbn [andb];
    [rewrite bool_decide_eq_true_2 by done
    |rewrite bool_decide_eq_false_2 by (intros [=])
    |rewrite bool_decide_eq_false_2 by done]; run;
    try (destruct (floorId s); by rewrite app_nil_r, set_calls_same).
  destruct (floorId s) as [f|]; run; [|by rewrite app_nil_r, set_calls_same].
  destruct (floors wd !! f) as [fl|]; cbn [fmap option_fmap option_map mbind option_bind];
    [|rewrite bool_decide_eq_false_2 by (by intros [??]); by rewrite app_nil_r, set_calls_same].
  destruct (fl !! LayerName_Draw) as [ly|] eqn:Hd; run.
  - by rewrite bool_decide_eq_true_2 by eauto.
  - rewrite bool_decide_eq_false_2 by (by intros [??]). by rewrite app_nil_r, set_calls_same.
Qed.

Lemma invalidate_keeps_this (skip : bool) (σ : Heap) :
  this (invalidate skip σ).2 = this σ.
Proof.
  destruct σ as [s wd]. unfold invalidate. run. destruct (layerName s) as [l|] eqn:Hl; run; [|done].
  rewrite get_layer_run. destruct (floorId s); [|done]. rewrite Hl.
  by destruct (layer_of s wd).
Qed.

Lemma updateShapeVision_keeps_this (alteredMovement alteredVision : bool) (σ : Heap) :
  this (updateShapeVision alteredMovement alteredVision σ).2 = this σ.
Proof.
  destruct σ as [s wd]. unfold updateShapeVision. run.
  destruct (properties wd (id s)) as [props|]; run; [|done].
  assert (∀ wd0 (k : Js unit),
            (∀ wd1, this (k (mkHeap s wd1)).2 = s) →
            this ((invalidate true ≫= λ _, k) (mkHeap s wd0)).2 = s) as Hinv.
  { intros wd0 k Hk. run. pose proof (invalidate_keeps_this true (mkHeap s wd0)) as Hthis.
    destruct (invalidate true (mkHeap s wd0)) as [[[]|e] [s1 wd1]]; cbn in Hthis; subst s1;
      [apply Hk|done]. }
  destruct (blocksVision props && negb alteredVision), (floorId s) as [f|]; run;
    apply Hinv; intros wd1; run;
    by destruct (blocksMovement props && negb alteredMovement).
Qed.

Lemma updateShapeVision_run (s : Shape) (wd : World) (props : ShapeProperties)
    (alteredMovement alteredVision : bool) :
  properties wd (id s) = Some props →
  layerName s = None ∨ is_Some (layer_of s wd) →
  updateShapeVision alteredMovement alteredVision (mkHeap s wd)
  = (Return (),
     mkHeap s (set_calls
       (calls wd
        ++ (if blocksVision props && negb alteredVision
            then triangulation_refresh VISION s else [])
        ++ invalidate_calls s
        ++ [call_invalidateLightAllFloors]
        ++ (if blocksMovement props && negb alteredMovement
            then triangulation_refresh MOVEMENT s else [])) wd)).
Proof.
  intros Hp Hl. unfold updateShapeVision. run. rewrite Hp. run.
  unfold triangulation_refresh, invalidate_calls.
  destruct (blocksVision props && negb alteredVision),
    (blocksMovement props && negb alteredMovement),
    (floorId s) as [f|] eqn:Hf; run;
    (rewrite invalidate_run by exact Hl); run; rewrite ?Hf;
    unfold log, modify_world; cbn [mret Js_ret this world calls set_calls];
    destruct (layerName s); rewrite <- ?app_assoc, ?set_calls_twice; reflexivity.
Qed.

Lemma set_angle_exact (s : Shape) (wd : World) (a : number) :
  set_angle a (mkHeap s wd)
  = (Return (), mkHeap (set__angle a s) (invalidatePoints_world (set__angle a s) wd)).
Proof. unfold set_angle. run. apply invalidatePoints_exact. Qed.


(** X12: [invalidatePoints] never throws and never touches the shape; it
    sends one [updateSectors] with the full aura box when the layer
    resolves and none otherwise, changes nothing else but the floors, and
    leaves the floors alone for a shape that is not snappable. *)
Theorem invalidatePoints_effect (s : Shape) (wd : World) :
  ∃ wd',
    invalidatePoints (mkHeap s wd) = (Return (), mkHeap s wd') ∧
    calls wd' = calls wd ++ updateSectors_calls s wd ∧
    set_floors (floors wd) (set_calls (calls wd) wd') = wd ∧
    (isSnappable s = false → floors wd' = floors wd).
Proof.
  exists (invalidatePoints_world s wd). split; [apply invalidatePoints_exact|].
  split; [apply invalidatePoints_world_calls|].
  unfold invalidatePoints_world, updateLayerPoints_world.
  destruct (isSnappable s); (split; [repeat case_match; by destruct wd|]); [done|].
  by intros _.
Qed.

(** X13: [invalidate] does nothing without a [layerName], sends one redraw
    request to the shape's layer when it resolves, and throws when
    [layerName] is set while the layer does not resolve. *)
Theorem invalidate_completion (s : Shape) (wd : World) (skipLightUpdate : bool) :
  match layerName s, layer_of s wd with
  | None, _ => invalidate skipLightUpdate (mkHeap s wd) = (Return (), mkHeap s wd)
  | Some l, Some _ =>
    ∃ f, floorId s = Some f ∧
         invalidate skipLightUpdate (mkHeap s wd)
         = (Return (),
            mkHeap s (set_calls (calls wd ++ [call_layer_invalidate f l skipLightUpdate]) wd))
  | Some _, None => invalidate skipLightUpdate (mkHeap s wd) = (Throw TypeError, mkHeap s wd)
  end.
Proof.
  destruct (layerName s) as [l|] eqn:Hl.
  - destruct (layer_of s wd) as [ly|] eqn:Hly.
    + destruct (floorId s) as [f|] eqn:Hf.
      * exists f. split; [done|]. rewrite invalidate_run by (right; rewrite Hly; eauto).
        by rewrite Hf, Hl.
      * unfold layer_of in Hly. by rewrite Hf in Hly.
    + apply invalidate_without_layer; [rewrite Hl; eauto|done].
  - rewrite invalidate_run by (by left). rewrite Hl.
    destruct (floorId s); by rewrite app_nil_r, set_calls_same.
Qed.

(** X14: the [refPoint] setter never throws; afterwards the getter reads
    the point back, the centre is recomputed, the vision iteration is -1,
    and the calls made are the sector update and, for a token on a floor
    with a Draw layer, one redraw of that layer. *)
Theorem set_refPoint_effect (s : Shape) (wd : World) (point : GlobalPoint) :
  let s' := set_visionIteration (-1)
              (set__center (__center (set__refPoint point s)) (set__refPoint point s)) in
  ∃ wd',
    set_refPoint point (mkHeap s wd) = (Return (), mkHeap s' wd') ∧
    get_refPoint (mkHeap s' wd') = (Return point, mkHeap s' wd') ∧
    calls wd' = calls wd ++ updateSectors_calls s' wd ++ draw_layer_calls s' wd.
Proof.
  intros s'. unfold set_refPoint, resetVisionIteration. run. fold s'.
  rewrite invalidatePoints_exact. run. rewrite invalidateDrawLayerOfToken_exact.
  eexists. split; [reflexivity|]. split; [reflexivity|].
  cbn [calls set_calls]. rewrite invalidatePoints_world_calls.
  by rewrite draw_layer_calls_invalidatePoints_world, <- app_assoc.
Qed.

Lemma setPositionRepresentation_this (s : Shape) (wd : World)
    (position : PositionRepresentation) (first : Point) (rest : list Point) :
  points position = first :: rest →
  this (setPositionRepresentation position (mkHeap s wd)).2
  = repositioned first (angle position) s.
Proof.
  intros Hp. unfold setPositionRepresentation, resetVisionIteration, repositioned.
  rewrite Hp. run. rewrite set_angle_exact. run.
  match goal with
  | |- context [updateShapeVision false false ?σ] =>
    pose proof (updateShapeVision_keeps_this false false σ) as Hthis;
    destruct (updateShapeVision false false σ) as [[[]|e] [s1 wd1]]
  end; cbn [this snd] in Hthis; subst s1; [|done].
  by rewrite invalidateDrawLayerOfToken_exact.
Qed.

(** X15: reading the position after [setPositionRepresentation] with a
    non-empty point list gives the angle and the first point that were
    written, also when the call threw on the way. *)
Theorem position_write_then_read (s : Shape) (wd : World)
    (position : PositionRepresentation) (first : Point) (rest : list Point) :
  points position = first :: rest →
  (getPositionRepresentation (setPositionRepresentation position (mkHeap s wd)).2).1
  = Return (mkPosition (angle position) [first]).
Proof.
  intros Hp. pose proof (setPositionRepresentation_this s wd position first rest Hp) as Hthis.
  destruct (setPositionRepresentation position (mkHeap s wd)) as [c [s1 wd1]].
  cbn [this snd] in Hthis. subst s1.
  unfold getPositionRepresentation, get_angle, get_refPoint. run. cbn. by destruct first.
Qed.

(** X16: writing back the position just read keeps reference point and
    angle; it only recomputes the centre and resets the vision iteration. *)
Theorem position_read_then_write (s : Shape) (wd : World) :
  ∃ position,
    getPositionRepresentation (mkHeap s wd) = (Return position, mkHeap s wd) ∧
    this (setPositionRepresentation position (mkHeap s wd)).2
    = set_visionIteration (-1) (set__center (__center s) s).
Proof.
  eexists. split; [reflexivity|].
  rewrite (setPositionRepresentation_this s wd _ (toArrayP (_refPoint s)) []) by done.
  unfold repositioned, toGP_array, toArrayP. cbn [fst snd angle].
  assert (set__refPoint (toGP (x (_refPoint s)) (y (_refPoint s))) s = s) as ->.
  { destruct s as [? ? ? [] ? ? ? ? ? ? ? ? ?]. reflexivity. }
  by destruct s.
Qed.

(** X17: after [setPositionRepresentation] with a non-empty point list the
    next read on a floor with a non-negative counter recomputes the polygon,
    from the centre taken at the new reference point (and the old angle);
    this holds whether or not the call threw. *)
Theorem setPositionRepresentation_forces_recompute (s : Shape) (wd wd2 : World)
    (position : PositionRepresentation) (first : Point) (rest : list Point)
    (floor : FloorId) :
  points position = first :: rest →
  floorId s = Some floor →
  0 ≤ visionIterations wd2 floor →
  calls_of get_visionPolygon
    (mkHeap (this (setPositionRepresentation position (mkHeap s wd)).2) wd2)
  = [call_computeVisibility (__center (set__refPoint (toGP_array first) s)) VISION floor].
Proof.
  intros Hp Hf Hpos. rewrite (setPositionRepresentation_this s wd position first rest Hp).
  apply (visionPolygon_stale (repositioned first (angle position) s) wd2 floor Hf).
  cbn. lia.
Qed.

(** X18: for a shape with properties whose layer resolves,
    [setPositionRepresentation] with a non-empty point list returns and
    calls, in this order: the sector update, the vision refresh if the
    shape blocks vision, the redraw requests, the movement refresh if it
    blocks movement, and the Draw-layer redraw of a token. *)
Theorem setPositionRepresentation_calls (s : Shape) (wd : World)
    (position : PositionRepresentation) (first : Point) (rest : list Point)
    (props : ShapeProperties) :
  points position = first :: rest →
  properties wd (id s) = Some props →
  layerName s = None ∨ is_Some (layer_of s wd) →
  let s' := repositioned first (angle position) s in
  ∃ wd',
    setPositionRepresentation position (mkHeap s wd) = (Return (), mkHeap s' wd') ∧
    calls wd' = calls wd
      ++ updateSectors_calls s' wd
      ++ (if blocksVision props then triangulation_refresh VISION s' else [])
      ++ invalidate_calls s'
      ++ [call_invalidateLightAllFloors]
      ++ (if blocksMovement props then triangulation_refresh MOVEMENT s' else [])
      ++ draw_layer_calls s' wd.
Proof.
  intros Hp Hprops Hl s'. unfold setPositionRepresentation, resetVisionIteration.
  rewrite Hp. run. rewrite set_angle_exact. run. fold (repositioned first (angle position) s).
  fold s'.
  match goal with
  | |- context [invalidatePoints_world ?s0 wd] => set (wd1 := invalidatePoints_world s0 wd)
  end.
  rewrite (updateShapeVision_run s' wd1 props false false).
  - run. rewrite invalidateDrawLayerOfToken_exact.
    eexists. split; [reflexivity|]. cbn [calls set_calls]. subst wd1.
    rewrite invalidatePoints_world_calls.
    change (draw_layer_calls s' (set_calls ?l ?w)) with (draw_layer_calls s' w).
    rewrite draw_layer_calls_invalidatePoints_world, !andb_true_r.
    rewrite <- !app_assoc. reflexivity.
  - subst wd1. by rewrite invalidatePoints_world_properties.
  - destruct Hl as [Hl|Hl]; [by left|right]. subst wd1.
    by apply invalidatePoints_world_layer_of.
Qed.


(** X19: [rotateAround] about the shape's own centre only adds to the
    angle: centre and vision cache stay, and the one call is the sector
    update. *)
Theorem rotateAround_own_center (s : Shape) (wd : World) (point : GlobalPoint)
    (angle : number) :
  equalsP point (_center s) = true →
  let s' := set__angle (_angle s + angle) s in
  ∃ wd',
    rotateAround point angle (mkHeap s wd) = (Return (), mkHeap s' wd') ∧
    calls wd' = calls wd ++ updateSectors_calls s' wd.
Proof.
  intros Heq s'. unfold rotateAround, get_center, get_angle. run. rewrite Heq. cbn [negb]. run.
  rewrite set_angle_exact. eexists. split; [reflexivity|]. apply invalidatePoints_world_calls.
Qed.

(** X20: [rotateAround] about any other point moves the centre through
    its setter, so the cached polygon is dropped and the next read on the
    shape's floor recomputes from the rotated centre. *)
Theorem rotateAround_other_point (s : Shape) (wd : World) (point : GlobalPoint)
    (angle : number) (floor : FloorId) :
  equalsP point (_center s) = false →
  floorId s = Some floor →
  let center' := rotateAroundPoint (_center s) point angle in
  let s' := set__angle (_angle s + angle)
              (set__visionPolygon None (set__center center' s)) in
  ∃ wd',
    rotateAround point angle (mkHeap s wd) = (Return (), mkHeap s' wd') ∧
    ∀ wd2, calls_of get_visionPolygon (mkHeap s' wd2)
           = [call_computeVisibility center' VISION floor].
Proof.
  intros Hne Hf center' s'. unfold rotateAround, get_center, get_angle, set_center. run.
  rewrite Hne. cbn [negb]. run. rewrite set_angle_exact. eexists. split; [reflexivity|].
  intros wd2. exact (visionPolygon_without_polygon s' wd2 floor Hf eq_refl).
Qed.

(** ** More on reading [visionPolygon] *)

Lemma visionPolygon_without_floor_exact (s : Shape) (wd : World) :
  floorId s = None →
  get_visionPolygon (mkHeap s wd)
  = (Return (mkPath2D (path2d_count wd) []),
     mkHeap s (set_path2d_count (S (path2d_count wd)) wd)).
Proof. intros Hf. unfold get_visionPolygon. run. rewrite Hf. by run. Qed.

(** X21: a shape without a floor gets a new path object at every read:
    two reads in a row return paths of different identity. *)
Theorem visionPolygon_without_floor_fresh (s : Shape) (wd : World) :
  floorId s = None →
  ∃ path1 path2 wd1 wd2,
    get_visionPolygon (mkHeap s wd) = (Return path1, mkHeap s wd1) ∧
    get_visionPolygon (mkHeap s wd1) = (Return path2, mkHeap s wd2) ∧
    path_id path1 ≠ path_id path2.
Proof.
  intros Hf. eexists _, _, _, _.
  split; [by apply visionPolygon_without_floor_exact|].
  split; [by apply visionPolygon_without_floor_exact|]. cbn. lia.
Qed.

(** X22: a read on a floor, thrown or returned, writes nothing but the
    five cache fields of the shape, the call log and the path count; it
    leaves the stored vision iteration equal to the floor's counter and a
    polygon in the cache, logs at most one [computeVisibility] call and
    allocates at most one path. *)
Theorem visionPolygon_frame (s : Shape) (wd : World) (floor : FloorId) :
  floorId s = Some floor →
  let σ' := (get_visionPolygon (mkHeap s wd)).2 in
  with_vision_cache_of s (this σ') = s ∧
  with_log_of wd (world σ') = wd ∧
  visionIteration (this σ') = visionIterations wd floor ∧
  is_Some (_visionPolygon (this σ')) ∧
  (calls (world σ') = calls wd ∨
   calls (world σ') = calls wd ++ [call_computeVisibility (_center s) VISION floor]) ∧
  (path2d_count wd ≤ path2d_count (world σ') ≤ S (path2d_count wd))%nat.
Proof.
  intros Hf σ'. subst σ'.
  destruct (get_visionPolygon_run s wd floor Hf) as (bbox & _ & Heq).
  cbv zeta in Heq. rewrite Heq. clear Heq.
  destruct (bool_decide (_visionPolygon s = None)) eqn:Hpoly;
    destruct (visionIterations wd floor =? visionIteration s) eqn:Hvis;
    destruct (bool_decide (_visionPath s = None)) eqn:Hpath;
    destruct (floorState_iteration wd =? floorIteration s) eqn:Hflo;
    cbn [negb orb];
    repeat match goal with
           | |- context [match ?o with _ => _ end] => destruct o eqn:?
           end;
    try apply Z.eqb_eq in Hvis; try apply bool_decide_eq_false in Hpoly;
    cbn [this world snd];
    (split; [by destruct s|]); (split; [by destruct wd|]);
    (split; [done|]); (split; [cbn; destruct (_visionPolygon s); eauto; congruence|]);
    (split; [cbn; auto|cbn; lia]).
Qed.

Lemma trace_polygon_cmds (wd : World) (path : Path2D) (first : Point) (polygon : list Point) :
  trace_polygon wd path first polygon
  = mkPath2D (path_id path)
      (path_cmds path ++ moveTo (g2lx wd first.1) (g2ly wd first.2)
         :: polygon_lines wd polygon ++ [closePath]).
Proof.
  unfold trace_polygon, polygon_lines.
  assert (∀ p, foldl (λ path point, path_add (lineTo (g2lx wd point.1) (g2ly wd point.2)) path)
                 p polygon
               = mkPath2D (path_id p)
                   (path_cmds p ++ ((λ point, lineTo (g2lx wd point.1) (g2ly wd point.2))
                                      <$> polygon))) as ->.
  { induction polygon as [|point polygon IH]; intros p; cbn [foldl fmap list_fmap].
    - rewrite app_nil_r. by destruct p.
    - rewrite IH. unfold path_add. cbn. by rewrite <- app_assoc. }
  unfold path_add. cbn. by rewrite <- !app_assoc.
Qed.

(** X23: when a read has to redraw and returns, the path is a new object
    whose commands are [moveTo] the first vertex, one [lineTo] per vertex in
    order (the first included) and [closePath], in local coordinates. *)
Theorem visionPolygon_redraw_path (s : Shape) (wd : World) (floor : FloorId)
    (path : Path2D) (s' : Shape) (wd' : World) :
  floorId s = Some floor →
  _visionPath s = None ∨ floorState_iteration wd ≠ floorIteration s
    ∨ visionIterations wd floor ≠ visionIteration s →
  get_visionPolygon (mkHeap s wd) = (Return path, mkHeap s' wd') →
  ∃ first rest,
    _visionPolygon s' = Some (first :: rest) ∧
    path_id path = path2d_count wd ∧
    path2d_count wd' = S (path2d_count wd) ∧
    path_cmds path = moveTo (g2lx wd first.1) (g2ly wd first.2)
                       :: polygon_lines wd (first :: rest) ++ [closePath].
Proof.
  intros Hf Hredraw Hrun.
  destruct (get_visionPolygon_run s wd floor Hf) as (bbox & _ & Heq).
  cbv zeta in Heq. rewrite Heq in Hrun. clear Heq.
  assert (bool_decide (_visionPath s = None)
          || negb (floorState_iteration wd =? floorIteration s)
          || negb (visionIterations wd floor =? visionIteration s) = true) as Hr.
  { destruct Hredraw as [->|[Hne%Z.eqb_neq|Hne%Z.eqb_neq]]; rewrite ?Hne;
      [done|by rewrite orb_true_r|by rewrite orb_true_r]. }
  rewrite Hr in Hrun.
  repeat match type of Hrun with
         | context [match ?o with _ => _ end] => destruct o eqn:?
         end; try discriminate Hrun;
    injection Hrun as <- <- <-; eexists _, _;
    (split; [cbn; eassumption|]); rewrite trace_polygon_cmds; cbn;
    (split; [done|]); (split; [by repeat case_match|done]).
Qed.

(** ** The origin setters and the vision cache *)

(** C1, as the code has it, for a shape on a floor.  The [refPoint] setter
    returns, stores the point, the recomputed centre and the sentinel
    vision iteration -1 and leaves the other fields as they were; it logs
    the sector update and the redraw of the Draw layer and nothing else,
    and changes the world in the log and the floors only; the next read, on
    any world whose counter for the floor is not negative, asks
    [computeVisibility] once, from the new centre.  The [center] setter
    stores the point, drops the cached polygon and leaves the world alone;
    the next read asks [computeVisibility] once, from that point.  The
    [angle] setter returns, writes [_angle] and no other field, logs the
    sector update only and changes the world in the log and the floors
    only; a shape that had a polygon of the present vision iteration still
    has one, and the next read asks [computeVisibility] nothing. *)
Theorem origin_setters_force_recompute (s : Shape) (wd : World) (point : GlobalPoint)
    (floor : FloorId) :
  floorId s = Some floor →
  (let s1 := set_visionIteration (-1)
               (set__center (__center (set__refPoint point s)) (set__refPoint point s)) in
   ∃ wd1,
     set_refPoint point (mkHeap s wd) = (Return (), mkHeap s1 wd1) ∧
     visionIteration s1 = -1 ∧
     calls wd1 = calls wd ++ updateSectors_calls s1 wd ++ draw_layer_calls s1 wd ∧
     set_floors (floors wd) (set_calls (calls wd) wd1) = wd ∧
     ∀ wd2, 0 ≤ visionIterations wd2 floor →
       calls_of get_visionPolygon (mkHeap s1 wd2)
       = [call_computeVisibility (__center (set__refPoint point s)) VISION floor]) ∧
  (let s1 := set__visionPolygon None (set__center point s) in
   set_center point (mkHeap s wd) = (Return (), mkHeap s1 wd) ∧
   ∀ wd2,
     calls_of get_visionPolygon (mkHeap s1 wd2)
     = [call_computeVisibility point VISION floor]) ∧
  (∀ a,
     let s1 := set__angle a s in
     ∃ wd1,
       set_angle a (mkHeap s wd) = (Return (), mkHeap s1 wd1) ∧
       calls wd1 = calls wd ++ updateSectors_calls s1 wd ∧
       set_floors (floors wd) (set_calls (calls wd) wd1) = wd ∧
       (is_Some (_visionPolygon s) →
        visionIteration s = visionIterations wd floor →
        calls_of get_visionPolygon (mkHeap s1 wd1) = [])).
Proof.
  intros Hf. split; [|split].
  - intros s1. unfold set_refPoint, resetVisionIteration. run. fold s1.
    rewrite invalidatePoints_exact. run. rewrite invalidateDrawLayerOfToken_exact.
    eexists. split; [reflexivity|]. split; [reflexivity|]. split; [|split].
    + cbn [calls set_calls]. rewrite invalidatePoints_world_calls.
      by rewrite draw_layer_calls_invalidatePoints_world, <- app_assoc.
    + rewrite set_calls_twice. apply invalidatePoints_world_frame.
    + intros wd2 Hpos. apply (visionPolygon_stale s1 wd2 floor Hf). cbn. lia.
  - intros s1. split; [reflexivity|]. intros wd2.
    exact (visionPolygon_without_polygon s1 wd2 floor Hf eq_refl).
  - intros a s1. exists (invalidatePoints_world s1 wd).
    split; [apply set_angle_exact|]. split; [apply invalidatePoints_world_calls|].
    split; [apply invalidatePoints_world_frame|].
    intros Hpoly Hcur. apply (visionPolygon_fresh s1 _ floor Hf); [|exact Hpoly].
    destruct (invalidatePoints_world_iterations s1 wd) as [-> _]. symmetry. exact Hcur.
Qed.

(** ** The vision box and the redrawn path *)

(** C7, in the form that does not depend on how differences round:
    [recalcVisionBbox] returns and writes [_visionBbox] only.  For a cached
    polygon with a vertex the box is [intersect] of two rectangles.  The
    first has its corner at the least x and the least y among the vertices
    and as sides the differences between the greatest and the least x and
    y.  The second starts from the shape's own box ([own]: the 5 by 5 box
    at the reference point for a shape without points, else the rectangle
    with its corner at the least coordinates of the points and as sides the
    differences of their extremes) and is united, in order, with the square
    of each vision-source aura.  Without a polygon or without a vertex the
    box is cleared.  A read that recomputes the polygon leaves the box of
    the new polygon behind. *)
Theorem visionBbox_is_clipped_extremes_rect (s : Shape) (wd : World) :
  ∃ own,
    match _points s with
    | [] => own = mkBoundingRect (_refPoint s) 5 5
    | points => extremes_box_delta points 0 own
    end ∧
    let clip :=
      foldl union own
        (aura_square s wd <$> filter (λ aura, visionSource aura = true) (auras wd (id s))) in
    (∃ bbox,
       recalcVisionBbox (mkHeap s wd) = (Return (), mkHeap (set__visionBbox bbox s) wd) ∧
       match _visionPolygon s with
       | None | Some [] => bbox = None
       | Some polygon => ∃ r, extremes_box polygon r ∧ bbox = Some (intersect r clip)
       end) ∧
    (∀ floor,
       floorId s = Some floor →
       _visionPolygon s = None ∨ visionIterations wd floor ≠ visionIteration s →
       let s' := this (get_visionPolygon (mkHeap s wd)).2 in
       let polygon := visibility wd (_center s) VISION floor in
       _visionPolygon s' = Some polygon ∧
       match polygon with
       | [] => _visionBbox s' = None
       | _ => ∃ r, extremes_box polygon r ∧ _visionBbox s' = Some (intersect r clip)
       end).
Proof.
  exists (getAABB s 0). split; [apply getAABB_extremes_box|].
  rewrite <- getAuraAABB_vision_sources. cbv zeta.
  split; [apply recalcVisionBbox_cases|].
  intros floor Hf Hstale.
  destruct (get_visionPolygon_run s wd floor Hf) as (bbox & Hbbox & Heq).
  cbv zeta in Heq. rewrite Heq. clear Heq.
  assert (bool_decide (_visionPolygon s = None)
          || negb (visionIterations wd floor =? visionIteration s) = true) as ->.
  { destruct Hstale as [->|Hne%Z.eqb_neq]; [done|]. rewrite Hne. apply orb_true_r. }
  destruct (visibility wd (_center s) VISION floor) as [|first rest] eqn:Hvis;
    repeat case_match; simplify_eq; cbn; rewrite ?Hvis; done.
Qed.

(** C8: when only the floor redraw iteration moved, a read returns a path
    that is a new object (its identity is the allocation count) and whose
    commands are [moveTo] the first vertex of the cached polygon, one
    [lineTo] per vertex of it in order and [closePath], in local
    coordinates; it stores that path and the redraw iteration it saw; the
    polygon, the bounding box and the vision iteration stay,
    [computeVisibility] is not asked, and the world changes in the
    allocation count only. *)
Theorem visionPolygon_redraw_only (s : Shape) (wd : World) (floor : FloorId)
    (first : Point) (rest : list Point) :
  floorId s = Some floor →
  _visionPolygon s = Some (first :: rest) →
  visionIterations wd floor = visionIteration s →
  floorState_iteration wd ≠ floorIteration s →
  ∃ path s' wd',
    get_visionPolygon (mkHeap s wd) = (Return path, mkHeap s' wd') ∧
    path_id path = path2d_count wd ∧
    path_cmds path = moveTo (g2lx wd first.1) (g2ly wd first.2)
                       :: polygon_lines wd (first :: rest) ++ [closePath] ∧
    s' = set_floorIteration (floorState_iteration wd) (set__visionPath (Some path) s) ∧
    _visionPolygon s' = _visionPolygon s ∧
    _visionBbox s' = _visionBbox s ∧
    visionIteration s' = visionIteration s ∧
    calls wd' = calls wd ∧
    wd' = set_path2d_count (S (path2d_count wd)) wd.
Proof.
  intros Hf Hpoly Heqv%Z.eqb_eq Hne%Z.eqb_neq.
  destruct (get_visionPolygon_run s wd floor Hf) as (bbox & _ & Heq).
  cbv zeta in Heq. rewrite Heqv, Hne, Hpoly in Heq.
  rewrite (bool_decide_eq_false_2 (Some (first :: rest) = None)) in Heq by done.
  rewrite orb_true_r in Heq. cbn [negb orb] in Heq. rewrite Hpoly in Heq.
  rewrite trace_polygon_cmds in Heq. cbn [path_id path_cmds app] in Heq.
  eexists _, _, _. split; [exact Heq|]. repeat split.
Qed.

End More.

(** ** The further properties at the sample shapes *)

Section MoreSamples.
#[local] Existing Instances sample_rects sample_class sample_math sample_canvas.

Lemma getPointIndex_of_vertex_witness :
  ∃ j : nat,
    getPointIndex sample_triangle (toGP 4 0) 0 = Z.of_nat j ∧ (j ≤ 3)%nat ∧
    _points sample_triangle !! j = Some (4, 0).
Proof. exact (getPointIndex_of_vertex sample_triangle 3 (4, 0) eq_refl). Defined.

Lemma getPointIndex_negative_delta_witness :
  getPointIndex sample_triangle (toGP 4 0) (-1) = -1.
Proof. apply getPointIndex_negative_delta. lia. Defined.

Lemma getBoundingBox_extremes_witness :
  _points sample_triangle ≠ [] ∧
  ∃ minx maxx miny maxy,
    (∀ p, p ∈ _points sample_triangle → minx ≤ p.1 ≤ maxx ∧ miny ≤ p.2 ≤ maxy) ∧
    (∃ p, p ∈ _points sample_triangle ∧ p.1 = minx) ∧
    (∃ p, p ∈ _points sample_triangle ∧ p.1 = maxx) ∧
    (∃ p, p ∈ _points sample_triangle ∧ p.2 = miny) ∧
    (∃ p, p ∈ _points sample_triangle ∧ p.2 = maxy) ∧
    mkBoundingRect (toGP (-1) (-1)) 6 5
    = mkBoundingRect (toGP (minx - 1) (miny - 1)) (maxx - minx + 2 * 1) (maxy - miny + 2 * 1).
Proof.
  split; [discriminate|].
  apply (getBoundingBox_extremes sample_triangle 1). discriminate.
Defined.

Lemma getAuraAABB_encloses_witness :
  rect_within (getAABB sample_shape 0) (getAuraAABB true sample_shape sample_world) ∧
  ∀ aura, aura ∈ auras sample_world 7 → (true = true → visionSource aura = true) →
    rect_within (aura_square sample_shape sample_world aura)
      (getAuraAABB true sample_shape sample_world).
Proof.
  apply (getAuraAABB_encloses true sample_shape sample_world).
  intros a b. unfold rect_within. cbn. lia.
Defined.

Lemma updateLayerPoints_frame_witness :
  ∃ wd',
    updateLayerPoints (mkHeap sample_shape sample_world) = (Return (), mkHeap sample_shape wd') ∧
    set_floors (floors sample_world) wd' = sample_world ∧
    (layer_of sample_shape sample_world = None → wd' = sample_world) ∧
    ∀ f l, (Some 0%nat, Some "tokens") ≠ (Some f, Some l) →
      floors wd' !! f ≫= (.!! l) = floors sample_world !! f ≫= (.!! l).
Proof. exact (updateLayerPoints_frame sample_shape sample_world). Defined.

Lemma invalidatePoints_effect_witness :
  ∃ wd',
    invalidatePoints (mkHeap sample_triangle sample_world)
      = (Return (), mkHeap sample_triangle wd') ∧
    calls wd' = [call_layer_updateSectors 0 "tokens" 9
                   (getAuraAABB false sample_triangle sample_world)] ∧
    set_floors (floors sample_world) (set_calls [] wd') = sample_world ∧
    (false = false → floors wd' = floors sample_world).
Proof. exact (invalidatePoints_effect sample_triangle sample_world). Defined.

Lemma position_write_then_read_witness :
  (getPositionRepresentation
     (setPositionRepresentation (mkPosition 1 [(9, 9); (3, 3)])
        (mkHeap sample_shape sample_world)).2).1
  = Return (mkPosition 1 [(9, 9)]).
Proof.
  exact (position_write_then_read sample_shape sample_world
           (mkPosition 1 [(9, 9); (3, 3)]) (9, 9) [(3, 3)] eq_refl).
Defined.

Lemma setPositionRepresentation_forces_recompute_witness :
  calls_of get_visionPolygon
    (mkHeap (this (setPositionRepresentation (mkPosition 1 [(9, 9)])
                     (mkHeap sample_shape sample_world)).2) sample_world)
  = [call_computeVisibility (toGP 9 9) VISION 0%nat].
Proof.
  refine (setPositionRepresentation_forces_recompute sample_shape sample_world sample_world
            (mkPosition 1 [(9, 9)]) (9, 9) [] 0%nat eq_refl eq_refl _).
  cbn. lia.
Defined.

Lemma setPositionRepresentation_calls_witness :
  let s' := repositioned (9, 9) 1 sample_shape in
  ∃ wd',
    setPositionRepresentation (mkPosition 1 [(9, 9)]) (mkHeap sample_shape sample_world)
      = (Return (), mkHeap s' wd') ∧
    calls wd' = calls sample_world
      ++ updateSectors_calls s' sample_world
      ++ triangulation_refresh VISION s'
      ++ invalidate_calls s'
      ++ [call_invalidateLightAllFloors]
      ++ triangulation_refresh MOVEMENT s'
      ++ draw_layer_calls s' sample_world.
Proof.
  refine (setPositionRepresentation_calls sample_shape sample_world
            (mkPosition 1 [(9, 9)]) (9, 9) [] (mkProps true true true) eq_refl eq_refl _).
  right. eexists. reflexivity.
Defined.

Lemma rotateAround_own_center_witness :
  let s' := set__angle 3 sample_shape in
  ∃ wd',
    rotateAround (toGP 5 5) 3 (mkHeap sample_shape sample_world) = (Return (), mkHeap s' wd') ∧
    calls wd' = calls sample_world ++ updateSectors_calls s' sample_world.
Proof. exact (rotateAround_own_center sample_shape sample_world (toGP 5 5) 3 eq_refl). Defined.

Lemma rotateAround_other_point_witness :
  let s' := set__angle 3 (set__visionPolygon None (set__center (toGP (-5) (-5)) sample_shape)) in
  ∃ wd',
    rotateAround (toGP 0 0) 3 (mkHeap sample_shape sample_world) = (Return (), mkHeap s' wd') ∧
    ∀ wd2, calls_of get_visionPolygon (mkHeap s' wd2)
           = [call_computeVisibility (toGP (-5) (-5)) VISION 0%nat].
Proof.
  exact (rotateAround_other_point sample_shape sample_world (toGP 0 0) 3 0%nat eq_refl eq_refl).
Defined.

Lemma visionPolygon_without_floor_fresh_witness :
  ∃ path1 path2 wd1 wd2,
    get_visionPolygon (mkHeap unplaced_shape sample_world) = (Return path1, mkHeap unplaced_shape wd1) ∧
    get_visionPolygon (mkHeap unplaced_shape wd1) = (Return path2, mkHeap unplaced_shape wd2) ∧
    path_id path1 ≠ path_id path2.
Proof. exact (visionPolygon_without_floor_fresh unplaced_shape sample_world eq_refl). Defined.

Lemma visionPolygon_frame_witness :
  let σ' := (get_visionPolygon (mkHeap stale_shape sample_world)).2 in
  with_vision_cache_of stale_shape (this σ') = stale_shape ∧
  with_log_of sample_world (world σ') = sample_world ∧
  visionIteration (this σ') = 3 ∧
  is_Some (_visionPolygon (this σ')) ∧
  (calls (world σ') = calls sample_world ∨
   calls (world σ') = calls sample_world ++ [call_computeVisibility (toGP 5 5) VISION 0%nat]) ∧
  (path2d_count sample_world ≤ path2d_count (world σ') ≤ S (path2d_count sample_world))%nat.
Proof. exact (visionPolygon_frame stale_shape sample_world 0%nat eq_refl). Defined.

Lemma visionPolygon_redraw_path_witness :
  let first_read := get_visionPolygon (mkHeap stale_shape sample_world) in
  ∃ first rest,
    _visionPolygon (this first_read.2) = Some (first :: rest) ∧
    path_id (mkPath2D 1 [moveTo (-20) (-20); lineTo (-20) (-20); lineTo 20 (-20);
                         lineTo 20 20; lineTo (-20) 20; closePath]) = 1%nat ∧
    path2d_count (world first_read.2) = 2%nat ∧
    [moveTo (-20) (-20); lineTo (-20) (-20); lineTo 20 (-20); lineTo 20 20;
     lineTo (-20) 20; closePath]
    = moveTo (g2lx sample_world first.1) (g2ly sample_world first.2)
        :: polygon_lines sample_world (first :: rest) ++ [closePath].
Proof.
  intros first_read.
  refine (visionPolygon_redraw_path stale_shape sample_world 0%nat
            (mkPath2D 1 [moveTo (-20) (-20); lineTo (-20) (-20); lineTo 20 (-20);
                         lineTo 20 20; lineTo (-20) 20; closePath])
            (this first_read.2) (world first_read.2) eq_refl _ eq_refl).
  right. right. discriminate.
Defined.

Lemma visionPolygon_empty_polygon_throws_witness :
  let dark := with_visibility (λ _ _ _, []) sample_world in
  ∃ s' wd',
    get_visionPolygon (mkHeap stale_shape dark) = (Throw TypeError, mkHeap s' wd') ∧
    _visionPolygon s' = Some [] ∧ _visionBbox s' = None ∧
    _visionPath s' = _visionPath stale_shape.
Proof.
  intros dark. apply (visionPolygon_empty_polygon_throws stale_shape dark 0%nat).
  - reflexivity.
  - discriminate.
  - reflexivity.
Defined.

Lemma visionPolygon_returns_witness :
  ∃ path s1 wd1,
    get_visionPolygon (mkHeap stale_shape sample_world) = (Return path, mkHeap s1 wd1).
Proof.
  apply (visionPolygon_returns stale_shape sample_world 0%nat).
  - reflexivity.
  - discriminate.
  - intros polygon [= <-]. discriminate.
Defined.

Lemma updateShapeVision_without_properties_witness :
  let unknown := with_properties (λ _, None) sample_world in
  updateShapeVision false false (mkHeap sample_shape unknown)
  = (Throw TypeError, mkHeap sample_shape unknown).
Proof.
  intros unknown. apply (updateShapeVision_without_properties sample_shape unknown).
  reflexivity.
Defined.

Lemma updateShapeVision_without_layer_witness :
  let adrift := set_floorId_layerName None (Some "tokens") sample_shape in
  ∃ wd',
    updateShapeVision false false (mkHeap adrift sample_world)
      = (Throw TypeError, mkHeap adrift wd') ∧
    calls wd' = [call_deleteFromTriangulation VISION 7; call_addToTriangulation VISION 7].
Proof.
  intros adrift.
  refine (updateShapeVision_without_layer adrift sample_world (mkProps true true true)
            false false eq_refl _ eq_refl).
  eexists. reflexivity.
Defined.

(** C7, as stated, fails over binary64 numbers: for the quadrilateral
    with vertices at x = -5 and x = 0.1 the loop finds the extremes -5 and
    0.1, the width [0.1 - (-5)] rounds to 5.0999999999999996, and the right
    edge [-5 + w] is 0.09999999999999964, to the left of the vertices at
    x = 0.1: the rectangle handed to [intersect] does not contain every
    vertex of the polygon. *)
Lemma visionBbox_rounding_leaves_vertex_out :
  (tenth, 0%float) ∈ sample_quad_binary64 ∧
  ∃ rx ry rw rh,
    recalcVisionBbox_rect_binary64 sample_quad_binary64 = Some (rx, ry, rw, rh) ∧
    (rx + rw <? tenth)%float = true ∧
    rect_contains_binary64 (rx, ry, rw, rh) (tenth, 0%float) = false.
Proof.
  split; [apply list_elem_of_further, list_elem_of_here|].
  eexists _, _, _, _. split; [vm_compute; reflexivity|].
  split; vm_compute; reflexivity.
Qed.

Lemma origin_setters_force_recompute_witness :
  floorId sample_shape = Some 0%nat ∧
  (∀ wd2, 0 ≤ visionIterations wd2 0%nat →
     calls_of get_visionPolygon
       (mkHeap (set_visionIteration (-1)
                  (set__center (toGP 9 9) (set__refPoint (toGP 9 9) sample_shape))) wd2)
     = [call_computeVisibility (toGP 9 9) VISION 0%nat]) ∧
  (∀ wd2,
     calls_of get_visionPolygon
       (mkHeap (set__visionPolygon None (set__center (toGP 9 9) sample_shape)) wd2)
     = [call_computeVisibility (toGP 9 9) VISION 0%nat]) ∧
  (∃ wd1,
     set_angle 1 (mkHeap sample_shape sample_world)
       = (Return (), mkHeap (set__angle 1 sample_shape) wd1) ∧
     calls wd1 = [call_layer_updateSectors 0%nat "tokens" 7%nat
                    (getAuraAABB false (set__angle 1 sample_shape) sample_world)] ∧
     calls_of get_visionPolygon (mkHeap (set__angle 1 sample_shape) wd1) = []).
Proof.
  split; [reflexivity|].
  destruct (origin_setters_force_recompute sample_shape sample_world (toGP 9 9) 0%nat eq_refl)
    as ((wd1 & _ & _ & _ & _ & Hread) & (_ & Hcenter) & Hangle).
  split; [exact Hread|]. split; [exact Hcenter|].
  destruct (Hangle 1) as (wd1' & Hrun & Hcalls & _ & Hfresh).
  exists wd1'. split; [exact Hrun|]. split; [exact Hcalls|].
  apply Hfresh; [by eexists|reflexivity].
Defined.

Lemma visionBbox_is_clipped_extremes_rect_witness :
  floorId stale_shape = Some 0%nat ∧
  visionIterations sample_world 0%nat ≠ visionIteration stale_shape ∧
  ∃ own r,
    extremes_box_delta [(5, 5)] 0 own ∧
    extremes_box [(-20, -20); (20, -20); (20, 20); (-20, 20)] r ∧
    _visionBbox (this (get_visionPolygon (mkHeap stale_shape sample_world)).2)
      = Some (intersect r (foldl union own
                             (aura_square stale_shape sample_world <$> [mkAura 1 1 true]))).
Proof.
  split; [reflexivity|]. split; [discriminate|].
  destruct (visionBbox_is_clipped_extremes_rect stale_shape sample_world)
    as (own & Hown & _ & Hread).
  destruct (Hread 0%nat eq_refl) as [_ (r & Hr & Hbbox)].
  - right. discriminate.
  - exists own, r. split; [exact Hown|]. split; [exact Hr|exact Hbbox].
Defined.

Lemma visionPolygon_redraw_only_witness :
  ∃ path s' wd',
    get_visionPolygon (mkHeap (set_floorIteration 1 sample_shape) sample_world)
      = (Return path, mkHeap s' wd') ∧
    path_id path = 1%nat ∧
    path_cmds path = [moveTo 0 0; lineTo 0 0; lineTo 10 0; lineTo 10 10; lineTo 0 10; closePath] ∧
    s' = set_floorIteration 4 (set__visionPath (Some path) (set_floorIteration 1 sample_shape)) ∧
    _visionPolygon s' = Some sample_square ∧
    _visionBbox s' = Some (mkBoundingRect (toGP 5 5) 5 5) ∧
    visionIteration s' = 3 ∧
    calls wd' = [] ∧
    wd' = set_path2d_count 2 sample_world.
Proof.
  apply (visionPolygon_redraw_only (set_floorIteration 1 sample_shape) sample_world 0%nat
           (0, 0) [(10, 0); (10, 10); (0, 10)]).
  - reflexivity.
  - reflexivity.
  - reflexivity.
  - discriminate.
Defined.

End MoreSamples.
